(** * Hyperliquid monitor front end: formatting helpers and the wallet-data hook

    A shallow embedding of two source files of the React client,

    - [frontend/src/utils/format.js]  (module [Format] below), and
    - [frontend/src/hooks/useWalletData.js], with the parts of
      [frontend/src/api/client.js] that decide what a request can settle
      with (module [Engine] below),

    followed by the properties of the specification that concern them. *)

From Stdlib Require Import String Ascii List Bool Arith ZArith QArith Lia.
From Stdlib Require Import DecimalString.
Import ListNotations.

Local Open Scope string_scope.

(* ================================================================== *)
(** ** JavaScript values that reach the formatters *)
(* ================================================================== *)

Module Format.

(** A JavaScript number.  A finite double other than negative zero is
    represented by the rational value of its shortest decimal form, the
    digits [String(x)] prints: the formatter rounds those digits, not the
    binary value of the double, so the double written [1.005] is
    [Finite (1005 # 1000)] and is rendered [1.01] with two fraction digits.
    [Finite 0] is positive zero; negative zero, which [JSON.parse] yields
    for [-0.0], is a value of its own. *)
Inductive number : Type :=
| NaN
| Infinity (negative : bool)
| Finite (q : Q)
| NegativeZero.

(** The primitive values a decoded JSON field or a missing field can be. *)
Inductive value : Type :=
| VUndefined
| VNull
| VBool (b : bool)
| VNum (n : number)
| VStr (s : string).

Definition Number_isNaN (n : number) : bool :=
  match n with NaN => true | _ => false end.

Definition isFinite (n : number) : bool :=
  match n with Finite _ => true | NegativeZero => true | _ => false end.

(* ------------------------------------------------------------------ *)
(** *** [Intl.NumberFormat('en-US', {minimumFractionDigits, maximumFractionDigits})] *)
(* ------------------------------------------------------------------ *)

(** The magnitude of the decimal [q] in units of [10^-mx], rounded half away
    from zero (the default rounding mode of [Intl.NumberFormat]). *)
Definition scaledMagnitude (mx : nat) (q : Q) : Z :=
  (2 * Z.abs (Qnum q) * 10 ^ Z.of_nat mx + Z.pos (Qden q))
    / (2 * Z.pos (Qden q)).

Definition digitChar (d : Z) : ascii :=
  ascii_of_nat (48 + Z.to_nat (d mod 10)).

Definition isDigit (a : ascii) : Prop :=
  exists k : nat, (k < 10)%nat /\ a = ascii_of_nat (48 + k).

Definition notN (a : ascii) : Prop := a <> "N"%char.

(** The [k] low decimal digits of [f], most significant first. *)
Fixpoint lowDigits (k : nat) (f : Z) : list ascii :=
  match k with
  | O => []
  | S k' => lowDigits k' (f / 10) ++ [digitChar f]
  end.

(** Drop trailing zeros of a digit list given least significant first, as
    long as more than [mn] digits remain. *)
Fixpoint stripZeros (mn : nat) (rev_digits : list ascii) : list ascii :=
  match rev_digits with
  | d :: rest =>
      if (mn <? List.length rev_digits)%nat && Ascii.eqb d "0"%char
      then stripZeros mn rest
      else rev_digits
  | [] => []
  end.

Definition fractionDigits (mn mx : nat) (scaled : Z) : list ascii :=
  rev (stripZeros mn (rev (lowDigits mx (scaled mod 10 ^ Z.of_nat mx)))).

(** Insert the en-US group separator every three digits; the digits are
    given least significant first. *)
Fixpoint groupRev (n : nat) (rev_digits : list ascii) : list ascii :=
  match rev_digits with
  | [] => []
  | d :: rest =>
      match n, rest with
      | _, [] => [d]
      | O, _ => d :: ","%char :: groupRev 2 rest
      | S n', _ => d :: groupRev n' rest
      end
  end.

Definition integerDigits (mx : nat) (scaled : Z) : list ascii :=
  list_ascii_of_string
    (NilZero.string_of_uint (N.to_uint (Z.to_N (scaled / 10 ^ Z.of_nat mx)))).

Definition groupedInteger (mx : nat) (scaled : Z) : string :=
  string_of_list_ascii (rev (groupRev 2 (rev (integerDigits mx scaled)))).

(** The sign printed for a number other than negative zero: a negative
    number keeps its sign even when it rounds to zero. *)
Definition signOf (q : Q) : string :=
  if (Qnum q <? 0)%Z then "-" else "".

Definition fractionPart (mn mx : nat) (scaled : Z) : string :=
  match fractionDigits mn mx scaled with
  | [] => ""
  | ds => "." ++ string_of_list_ascii ds
  end.

(** [formatter.format(n)] for a formatter built with the two digit options. *)
Definition format (mn mx : nat) (n : number) : string :=
  match n with
  | NaN => "NaN"
  | Infinity false => "∞"
  | Infinity true => "-∞"
  | Finite q =>
      let scaled := scaledMagnitude mx q in
      signOf q ++ groupedInteger mx scaled ++ fractionPart mn mx scaled
  | NegativeZero => "-" ++ groupedInteger mx 0 ++ fractionPart mn mx 0
  end.

(** The constructor rejects digit options that are out of range or
    inconsistent with a [RangeError]. *)
Definition validDigits (mn mx : nat) : bool :=
  (mn <=? mx)%nat && (mx <=? 100)%nat.

(** What a call does: it returns a string or throws. *)
Inductive outcome : Type :=
| Returns (s : string)
| Throws (name : string).

(** The optional fields of the [options] argument of [formatNumber]. *)
Record NumberOptions : Type := {
  minimumFractionDigits : option nat;
  maximumFractionDigits : option nat
}.

Definition noOptions : NumberOptions :=
  {| minimumFractionDigits := None; maximumFractionDigits := None |}.

Definition orDefault (o : option nat) (d : nat) : nat :=
  match o with Some n => n | None => d end.

Section Coercion.

(** [Number(s)] on a string is the language's [StringToNumber]; the
    formatters are read relative to it. *)
Variable StringToNumber : string -> number.

(** [Number(value)] on the primitives above. *)
Definition Number (v : value) : number :=
  match v with
  | VUndefined => NaN
  | VNull => Finite 0
  | VBool true => Finite 1
  | VBool false => Finite 0
  | VNum n => n
  | VStr s => StringToNumber s
  end.

(** The guard shared by all numeric formatters:
    [value === null || value === undefined || Number.isNaN(Number(value))]. *)
Definition notApplicable (v : value) : bool :=
  match v with
  | VNull => true
  | VUndefined => true
  | _ => Number_isNaN (Number v)
  end.

(** [numberFormatter]: minimum 2, maximum 2 fraction digits. *)
Definition numberFormatter : number -> string := format 2 2.

(** [priceFormatter]: minimum 2, maximum 4 fraction digits. *)
Definition priceFormatter : number -> string := format 2 4.

Definition formatCurrency (v : value) : string :=
  if notApplicable v then "N/A"
  else "$" ++ numberFormatter (Number v).

Definition formatNumber (v : value) (options : NumberOptions) : outcome :=
  if notApplicable v then Returns "N/A"
  else
    let mn := orDefault (minimumFractionDigits options) 2 in
    let mx := orDefault (maximumFractionDigits options) 2 in
    if validDigits mn mx then Returns (format mn mx (Number v))
    else Throws "RangeError".

Definition formatPrice (v : value) : string :=
  if notApplicable v then "N/A"
  else priceFormatter (Number v).

Definition formatPercentage (v : value) : outcome :=
  if notApplicable v then Returns "N/A"
  else
    match formatNumber v {| minimumFractionDigits := Some 2%nat;
                            maximumFractionDigits := Some 2%nat |} with
    | Returns s => Returns (s ++ "%")
    | Throws e => Throws e
    end.

End Coercion.

(** A coercion to instantiate the section with: it agrees with
    [StringToNumber] on the empty string, the only string it is applied
    to. *)
Definition sampleStringToNumber (s : string) : number :=
  if s =? "" then Finite 0 else NaN.

End Format.

(* ================================================================== *)
(** ** The wallet-data hook, [useWalletData] *)
(* ================================================================== *)

Module Engine.

Definition REFRESH_INTERVAL : Z := 15000.

(** A thrown value, as far as the hook reads it: [err.message]. *)
Record JsError : Type := { message : option string }.

(** [m || fallback] for a string-or-undefined [m]. *)
Definition orText (m : option string) (fallback : string) : string :=
  match m with
  | Some s => if s =? "" then fallback else s
  | None => fallback
  end.

(** How a promise settles. *)
Inductive settled (A : Type) : Type :=
| Fulfilled (v : A)
| Rejected (e : JsError).
Arguments Fulfilled {A} v.
Arguments Rejected {A} e.

(** The [TypeError] of reading property [prop] of [null]. *)
Definition nullPropertyError (prop : string) : JsError :=
  {| message := Some ("Cannot read properties of null (reading '" ++ prop ++ "')") |}.

(* ------------------------------------------------------------------ *)
(** *** [api/client.js]: what [request] settles with *)
(* ------------------------------------------------------------------ *)

(** What [fetch] and the response accessors do on one round trip. *)
Inductive roundTrip (Body : Type) : Type :=
| FetchRejects (e : JsError)
| Response (ok : bool) (status : nat) (statusText : string)
           (text : settled string) (json : settled (option Body)).
Arguments FetchRejects {Body} e.
Arguments Response {Body} ok status statusText text json.

Definition statusMessage (status : nat) : string :=
  "Request failed with status " ++ NilZero.string_of_uint (Nat.to_uint status).

(** [request(path, options)]; a [null] result is [None]. *)
Definition request {Body : Type} (t : roundTrip Body) : settled (option Body) :=
  match t with
  | FetchRejects e => Rejected e
  | Response ok status statusText text json =>
      if negb ok then
        let errorText :=
          match text with Fulfilled s => s | Rejected _ => statusText end in
        Rejected {| message := Some (if errorText =? "" then statusMessage status
                                     else errorText) |}
      else if (status =? 204)%nat then Fulfilled None
      else json
  end.

(* ------------------------------------------------------------------ *)
(** *** State of the hook *)
(* ------------------------------------------------------------------ *)

(** Body of [GET /wallets]; the field may be missing. *)
Record WalletsResponse : Type := { response_wallets : option (list string) }.

(** One of the two promises handed to [Promise.all]. *)
Inductive slot (A : Type) : Type :=
| Outstanding
| Resolved (v : A)
| Failed.
Arguments Outstanding {A}.
Arguments Resolved {A} v.
Arguments Failed {A}.

Section Hook.

(** The hook never looks inside a summary or a fill. *)
Context {Summary Fill : Type}.

(** Body of [GET /wallets/{address}/fills]; the field may be missing. *)
Record FillsResponse : Type := { items : option (list Fill) }.

(** One call [loadData(address)] with a non-empty address, suspended at
    [await Promise.all([...])].  [finished] records that [Promise.all] has
    settled and the rest of [loadData] has run. *)
Record Cycle : Type := {
  cycleId : nat;
  address : string;
  summarySlot : slot (option Summary);
  fillsSlot : slot (option FillsResponse);
  finished : bool
}.

(** The six [useState] cells, and what the runtime holds for the hook: the
    interval installed by the selection effect (the address its callback
    captured and the time it is next due), the suspended [loadData] calls,
    the number of suspended [loadWallets] calls, and a clock in
    milliseconds. *)
Record State : Type := {
  wallets : list string;
  selectedWallet : string;
  summary : option Summary;
  fills : list Fill;
  loading : bool;
  error : string;
  timer : option (string * Z);
  cycles : list Cycle;
  walletRequests : nat;
  nextId : nat;
  now : Z
}.

(** The part of the state the specification calls the Snapshot. *)
Definition snapshot (st : State) : option Summary * list Fill * bool * string :=
  (summary st, fills st, loading st, error st).

Definition setWallets (l : list string) (st : State) : State :=
  {| wallets := l; selectedWallet := selectedWallet st; summary := summary st;
     fills := fills st; loading := loading st; error := error st;
     timer := timer st; cycles := cycles st;
     walletRequests := walletRequests st; nextId := nextId st; now := now st |}.

Definition setSelectedWallet (w : string) (st : State) : State :=
  {| wallets := wallets st; selectedWallet := w; summary := summary st;
     fills := fills st; loading := loading st; error := error st;
     timer := timer st; cycles := cycles st;
     walletRequests := walletRequests st; nextId := nextId st; now := now st |}.

Definition setSummary (s : option Summary) (st : State) : State :=
  {| wallets := wallets st; selectedWallet := selectedWallet st; summary := s;
     fills := fills st; loading := loading st; error := error st;
     timer := timer st; cycles := cycles st;
     walletRequests := walletRequests st; nextId := nextId st; now := now st |}.

Definition setFills (f : list Fill) (st : State) : State :=
  {| wallets := wallets st; selectedWallet := selectedWallet st;
     summary := summary st; fills := f; loading := loading st;
     error := error st; timer := timer st; cycles := cycles st;
     walletRequests := walletRequests st; nextId := nextId st; now := now st |}.

Definition setLoading (b : bool) (st : State) : State :=
  {| wallets := wallets st; selectedWallet := selectedWallet st;
     summary := summary st; fills := fills st; loading := b;
     error := error st; timer := timer st; cycles := cycles st;
     walletRequests := walletRequests st; nextId := nextId st; now := now st |}.

Definition setError (e : string) (st : State) : State :=
  {| wallets := wallets st; selectedWallet := selectedWallet st;
     summary := summary st; fills := fills st; loading := loading st;
     error := e; timer := timer st; cycles := cycles st;
     walletRequests := walletRequests st; nextId := nextId st; now := now st |}.

Definition setTimer (t : option (string * Z)) (st : State) : State :=
  {| wallets := wallets st; selectedWallet := selectedWallet st;
     summary := summary st; fills := fills st; loading := loading st;
     error := error st; timer := t; cycles := cycles st;
     walletRequests := walletRequests st; nextId := nextId st; now := now st |}.

Definition setCycles (cs : list Cycle) (st : State) : State :=
  {| wallets := wallets st; selectedWallet := selectedWallet st;
     summary := summary st; fills := fills st; loading := loading st;
     error := error st; timer := timer st; cycles := cs;
     walletRequests := walletRequests st; nextId := nextId st; now := now st |}.

Definition setWalletRequests (n : nat) (st : State) : State :=
  {| wallets := wallets st; selectedWallet := selectedWallet st;
     summary := summary st; fills := fills st; loading := loading st;
     error := error st; timer := timer st; cycles := cycles st;
     walletRequests := n; nextId := nextId st; now := now st |}.

Definition setNextId (n : nat) (st : State) : State :=
  {| wallets := wallets st; selectedWallet := selectedWallet st;
     summary := summary st; fills := fills st; loading := loading st;
     error := error st; timer := timer st; cycles := cycles st;
     walletRequests := walletRequests st; nextId := n; now := now st |}.

Definition setNow (t : Z) (st : State) : State :=
  {| wallets := wallets st; selectedWallet := selectedWallet st;
     summary := summary st; fills := fills st; loading := loading st;
     error := error st; timer := timer st; cycles := cycles st;
     walletRequests := walletRequests st; nextId := nextId st; now := t |}.

(** The state after the first render and its two effects: [loadWallets()]
    has been called and is suspended at [await fetchWallets()]; the selection
    effect saw the empty selection and returned. *)
Definition mounted : State :=
  {| wallets := []; selectedWallet := ""; summary := None; fills := [];
     loading := false; error := ""; timer := None; cycles := [];
     walletRequests := 1; nextId := 0; now := 0 |}.

(* ------------------------------------------------------------------ *)
(** *** [loadWallets] *)
(* ------------------------------------------------------------------ *)

(** The updater passed to [setSelectedWallet] in [loadWallets]. *)
Definition reconcile (current : string) (list : list string) : string :=
  if negb (current =? "") && existsb (String.eqb current) list
  then current
  else hd "" list.

(** [response.wallets || []]. *)
Definition walletsOf (r : WalletsResponse) : list string :=
  match response_wallets r with Some l => l | None => [] end.

(* ------------------------------------------------------------------ *)
(** *** [loadData] *)
(* ------------------------------------------------------------------ *)

Definition newCycle (id : nat) (a : string) : Cycle :=
  {| cycleId := id; address := a; summarySlot := Outstanding;
     fillsSlot := Outstanding; finished := false |}.

(** [loadData(address)] up to its [await]. *)
Definition loadData (a : string) (st : State) : State :=
  if a =? "" then setFills [] (setSummary None st)
  else
    let st1 := setError "" (setLoading true st) in
    setNextId (S (nextId st1))
      (setCycles (cycles st1 ++ [newCycle (nextId st1) a]) st1).

(** [fillsResponse.items || []]. *)
Definition itemsOf (r : FillsResponse) : list Fill :=
  match items r with Some l => l | None => [] end.

(** The [catch] and [finally] blocks of [loadData]. *)
Definition loadDataCatch (e : JsError) (st : State) : State :=
  setLoading false (setError (orText (message e) "Failed to load wallet data") st).

(** [loadData] after [Promise.all] fulfilled with the two responses.  A
    [null] fills response makes [fillsResponse.items] throw after
    [setSummary] has run. *)
Definition loadDataResume (s : option Summary) (f : option FillsResponse)
    (st : State) : State :=
  let st1 := setSummary s st in
  match f with
  | Some r => setLoading false (setFills (itemsOf r) st1)
  | None => loadDataCatch (nullPropertyError "items") st1
  end.

(** The selection effect, run after a render in which [selectedWallet] may
    have changed from [previous]: React runs the old cleanup
    ([clearInterval]) and the effect body only when the dependency changed. *)
Definition selectionEffect (previous : string) (st : State) : State :=
  if selectedWallet st =? previous then st
  else
    let st1 := setTimer None st in
    if selectedWallet st1 =? "" then st1
    else
      setTimer (Some (selectedWallet st1, now st1 + REFRESH_INTERVAL)%Z)
        (loadData (selectedWallet st1) st1).

(* ------------------------------------------------------------------ *)
(** *** Transitions *)
(* ------------------------------------------------------------------ *)

(** What can happen to a mounted hook.  Each event is one JavaScript job;
    state updates made in one job are rendered together. *)
Inductive Event : Type :=
| ReloadWallets
| WalletsSettled (r : settled (option WalletsResponse))
| SelectWallet (w : string)
| Refresh
| Tick
| Elapse (d : Z)
| SummarySettled (id : nat) (r : settled (option Summary))
| FillsSettled (id : nat) (r : settled (option FillsResponse)).

Fixpoint findCycle (id : nat) (cs : list Cycle) : option Cycle :=
  match cs with
  | [] => None
  | c :: rest => if (cycleId c =? id)%nat then Some c else findCycle id rest
  end.

Fixpoint replaceCycle (c' : Cycle) (cs : list Cycle) : list Cycle :=
  match cs with
  | [] => []
  | c :: rest =>
      if (cycleId c =? cycleId c')%nat then c' :: rest
      else c :: replaceCycle c' rest
  end.

Definition withSummary (sl : slot (option Summary)) (c : Cycle) : Cycle :=
  {| cycleId := cycleId c; address := address c; summarySlot := sl;
     fillsSlot := fillsSlot c; finished := finished c |}.

Definition withFills (sl : slot (option FillsResponse)) (c : Cycle) : Cycle :=
  {| cycleId := cycleId c; address := address c;
     summarySlot := summarySlot c; fillsSlot := sl; finished := finished c |}.

Definition finish (c : Cycle) : Cycle :=
  {| cycleId := cycleId c; address := address c;
     summarySlot := summarySlot c; fillsSlot := fillsSlot c;
     finished := true |}.

Definition isOutstanding {A : Type} (s : slot A) : bool :=
  match s with Outstanding => true | _ => false end.

Definition toSlot {A : Type} (r : settled A) : slot A :=
  match r with Fulfilled v => Resolved v | Rejected _ => Failed end.

(** [loadWallets] resumes after [await fetchWallets()]. *)
Definition loadWalletsResume (r : settled (option WalletsResponse))
    (st : State) : State :=
  match r with
  | Fulfilled (Some response) =>
      let list := walletsOf response in
      let previous := selectedWallet st in
      selectionEffect previous
        (setSelectedWallet (reconcile previous list) (setWallets list st))
  | Fulfilled None =>
      setError (orText (message (nullPropertyError "wallets"))
                       "Failed to load wallets") st
  | Rejected err =>
      setError (orText (message err) "Failed to load wallets") st
  end.

(** One input promise of [Promise.all] settles: [c] is the suspended call
    before, [c'] after, and [r] the rejection reason if any.  [Promise.all]
    rejects on the first rejection and fulfils when both inputs are
    fulfilled; once it has settled, a later settlement of the other input
    has no effect. *)
Definition settleCycle (c : Cycle) (c' : Cycle)
    (r : option JsError) (st : State) : State :=
  if finished c then setCycles (replaceCycle c' (cycles st)) st
  else
    match r with
    | Some err =>
        loadDataCatch err
          (setCycles (replaceCycle (finish c') (cycles st)) st)
    | None =>
        match summarySlot c', fillsSlot c' with
        | Resolved s, Resolved f =>
            loadDataResume s f
              (setCycles (replaceCycle (finish c') (cycles st)) st)
        | _, _ => setCycles (replaceCycle c' (cycles st)) st
        end
    end.

Definition rejection {A : Type} (r : settled A) : option JsError :=
  match r with Fulfilled _ => None | Rejected e => Some e end.

(** [step st ev] is the state after [ev], or [None] when [ev] cannot happen
    in [st]. *)
Definition step (st : State) (ev : Event) : option State :=
  match ev with
  | ReloadWallets =>
      Some (setWalletRequests (S (walletRequests st)) st)
  | WalletsSettled r =>
      match walletRequests st with
      | O => None
      | S n => Some (loadWalletsResume r (setWalletRequests n st))
      end
  | SelectWallet w =>
      Some (selectionEffect (selectedWallet st) (setSelectedWallet w st))
  | Refresh =>
      Some (loadData (selectedWallet st) st)
  | Tick =>
      match timer st with
      | Some (a, due) =>
          if (now st <=? due)%Z then
            Some (loadData a
                    (setTimer (Some (a, due + REFRESH_INTERVAL)%Z)
                       (setNow due st)))
          else None
      | None => None
      end
  | Elapse d =>
      if (0 <=? d)%Z
         && match timer st with
            | Some (_, due) => (now st + d <=? due)%Z
            | None => true
            end
      then Some (setNow (now st + d)%Z st)
      else None
  | SummarySettled id r =>
      match findCycle id (cycles st) with
      | Some c =>
          if isOutstanding (summarySlot c) then
            Some (settleCycle c (withSummary (toSlot r) c) (rejection r) st)
          else None
      | None => None
      end
  | FillsSettled id r =>
      match findCycle id (cycles st) with
      | Some c =>
          if isOutstanding (fillsSlot c) then
            Some (settleCycle c (withFills (toSlot r) c) (rejection r) st)
          else None
      | None => None
      end
  end.

Fixpoint run (st : State) (evs : list Event) : option State :=
  match evs with
  | [] => Some st
  | ev :: rest =>
      match step st ev with
      | Some st' => run st' rest
      | None => None
      end
  end.

(** States the hook can be in. *)
Inductive reachable : State -> Prop :=
| reachable_mounted : reachable mounted
| reachable_step st ev st' :
    reachable st -> step st ev = Some st' -> reachable st'.

(** Identifiers of suspended calls are below the next one to hand out. *)
Definition freshIds (st : State) : Prop :=
  Forall (fun c => (cycleId c < nextId st)%nat) (cycles st).

(** The Selection constraint of the data model. *)
Definition selectionValid (st : State) : Prop :=
  selectedWallet st = "" \/ In (selectedWallet st) (wallets st).

End Hook.

Arguments State : clear implicits.
Arguments Cycle : clear implicits.
Arguments Event : clear implicits.
Arguments FillsResponse : clear implicits.

End Engine.

(* ================================================================== *)
(** ** Concrete sessions *)
(* ================================================================== *)

Module Examples.

Import Engine.

(** Payloads with the fields the dashboard reads. *)
Record SampleSummary : Type := { equity : Z; positions : list string }.

Definition SampleFill : Type := string.

Definition Session : Type := State SampleSummary SampleFill.

Definition failure (m : string) : JsError := {| message := Some m |}.

Definition walletList (l : list string) : settled (option WalletsResponse) :=
  Fulfilled (Some {| response_wallets := Some l |}).

Definition runFrom (st : Session)
    (evs : list (Event SampleSummary SampleFill)) : Session :=
  match run st evs with Some st' => st' | None => st end.

Definition summaryA : option SampleSummary :=
  Some {| equity := 100; positions := [] |}.

Definition summaryB : option SampleSummary :=
  Some {| equity := 7; positions := ["ETH"] |}.

Definition fillsA : FillsResponse SampleFill := {| items := Some ["fill-a"] |}.

Definition fillsB : FillsResponse SampleFill := {| items := Some [] |}.

(** The list [["0xA"; "0xB"]] has arrived: ["0xA"] is selected, its first
    [loadData] call (identifier 0) is suspended and its interval is due at
    15000. *)
Definition selectedA : Session :=
  runFrom mounted [WalletsSettled (walletList ["0xA"; "0xB"])].

(** The user then picked ["0xB"] while call 0 was still suspended, and the
    call for ["0xB"] (identifier 1) has completed. *)
Definition switchedToB : Session :=
  runFrom selectedA
    [SelectWallet "0xB";
     SummarySettled 1 (Fulfilled summaryB);
     FillsSettled 1 (Fulfilled (Some fillsB))].

(** ["0xA"] is selected and its first call has completed. *)
Definition loadedA : Session :=
  runFrom selectedA
    [SummarySettled 0 (Fulfilled summaryA);
     FillsSettled 0 (Fulfilled (Some fillsA))].

End Examples.

(* ================================================================== *)
(** ** The API client: base URL, request configuration, wallet paths *)
(* ================================================================== *)

Module Client.

(** [value.replace(/\/$/, '')]: the pattern matches one slash at the very
    end of the string. *)
Fixpoint stripTrailingSlash (s : string) : string :=
  match s with
  | EmptyString => EmptyString
  | String c rest =>
      match rest with
      | EmptyString => if Ascii.eqb c "/"%char then EmptyString else s
      | _ => String c (stripTrailingSlash rest)
      end
  end.

(** [normalizeBaseUrl(value)]; [None] is [undefined]. *)
Definition normalizeBaseUrl (value : option string) : option string :=
  match value with
  | Some s => if s =? "" then Some s else Some (stripTrailingSlash s)
  | None => None
  end.

(** [API_BASE_URL], as a function of [import.meta.env.VITE_API_BASE_URL]. *)
Definition API_BASE_URL (env : option string) : string :=
  match normalizeBaseUrl env with
  | Some s => if s =? "" then "/api" else s
  | None => "/api"
  end.

(** A JavaScript object read as a map from its own keys to values. *)
Definition obj (A : Type) : Type := string -> option A.

Definition emptyObj {A : Type} : obj A := fun _ => None.

(** [{ k: v }]. *)
Definition prop {A : Type} (k : string) (v : A) : obj A :=
  fun k' => if k' =? k then Some v else None.

(** [{ ...o1, ...o2 }]: keys of [o2] win. *)
Definition spread {A : Type} (o1 o2 : obj A) : obj A :=
  fun k => match o2 k with Some v => Some v | None => o1 k end.

(** What a field of the [options] and [config] objects holds. *)
Inductive field : Type :=
| Text (s : string)
| Headers (h : obj string).

(** [options.headers || {}]. *)
Definition headersOf (options : obj field) : obj string :=
  match options "headers" with
  | Some (Headers h) => h
  | _ => emptyObj
  end.

(** The [config] object built by [request(path, options)]. *)
Definition requestConfig (options : obj field) : obj field :=
  spread
    (prop "headers"
       (Headers (spread (prop "Content-Type" "application/json")
                        (headersOf options))))
    options.

(** The URL [request] fetches. *)
Definition requestUrl (env : option string) (path : string) : string :=
  API_BASE_URL env ++ path.

(** The options [apiClient.get(path, options)] hands to [request];
    [options] is [emptyObj] when the caller passes none. *)
Definition getOptions (options : obj field) : obj field :=
  spread (prop "method" (Text "GET")) options.

(** The options [apiClient.post(path, body, options)] hands to [request];
    [json] is [JSON.stringify(body)]. *)
Definition postOptions (json : string) (options : obj field) : obj field :=
  spread (spread (prop "method" (Text "POST")) (prop "body" (Text json)))
    options.

(** [String(n)] for a non-negative integer below [10^21], where it is the
    decimal numeral. *)
Definition decimal (n : N) : string :=
  NilZero.string_of_uint (N.to_uint n).

(** The paths of [api/wallet.js]. *)
Definition fetchWalletsPath : string := "/wallets".

Definition fetchWalletSummaryPath (address : string) : string :=
  "/wallets/" ++ address.

Definition fetchWalletPositionsPath (address : string) : string :=
  "/wallets/" ++ address ++ "/positions".

(** [limit] defaults to 50; a decimal numeral needs no escaping in the
    query string. *)
Definition fetchWalletFillsPath (address : string) (limit : option N)
    : string :=
  "/wallets/" ++ address ++ "/fills?"
    ++ "limit=" ++ decimal (match limit with Some n => n | None => 50%N end).

Definition fetchWalletMetricsPath (address : string) : string :=
  "/wallets/" ++ address ++ "/metrics".

(** The message of the error [request] throws for a response that is not
    [ok]: the body text, or the status text when the body cannot be read,
    or the status line when that is empty. *)
Definition errorTextOf (status : nat) (statusText : string)
    (text : Engine.settled string) : string :=
  let errorText :=
    match text with
    | Engine.Fulfilled s => s
    | Engine.Rejected _ => statusText
    end in
  if errorText =? "" then Engine.statusMessage status else errorText.

End Client.

(* ================================================================== *)
(** ** Components: what they compute from their props *)
(* ================================================================== *)

Module Components.

Import Format.
Import Engine.

(** [ToBoolean] on the primitives. *)
Definition truthy (v : value) : bool :=
  match v with
  | VUndefined => false
  | VNull => false
  | VBool b => b
  | VNum NaN => false
  | VNum (Infinity _) => true
  | VNum NegativeZero => false
  | VNum (Finite q) => negb (Qnum q =? 0)%Z
  | VStr s => negb (s =? "")
  end.

Definition isNullish (v : value) : bool :=
  match v with VUndefined => true | VNull => true | _ => false end.

(** [a ?? b]. *)
Definition nullish (a b : value) : value :=
  if isNullish a then b else a.

(** A number from an array length. *)
Definition ofLength (n : nat) : value := VNum (Finite (inject_Z (Z.of_nat n))).

(** The summary object as [MetricsGrid] reads it. *)
Record SummaryObject (Position : Type) : Type := {
  equity : value;
  balance : value;
  withdrawable : value;
  totalPositionValue : value;
  positions : option (list Position)
}.
Arguments equity {Position} s.
Arguments balance {Position} s.
Arguments withdrawable {Position} s.
Arguments totalPositionValue {Position} s.
Arguments positions {Position} s.

Record card : Type := { title : string; cardValue : string; hint : string }.

(** What a component returns: [null], its cards, or an exception. *)
Inductive rendering : Type :=
| Nothing
| Cards (cs : list card)
| Raised (name : string).

Section Rendering.

Variable StringToNumber : string -> number.

(** [summary.positions?.length ?? 0]. *)
Definition positionsLength {Position : Type} (s : SummaryObject Position)
    : value :=
  match positions s with
  | Some l => ofLength (List.length l)
  | None => ofLength 0
  end.

(** [MetricsGrid({ summary })]. *)
Definition MetricsGrid {Position : Type}
    (summary : option (SummaryObject Position)) : rendering :=
  match summary with
  | None => Nothing
  | Some s =>
      let e := formatCurrency StringToNumber
                 (nullish (equity s) (nullish (balance s) (ofLength 0))) in
      let w := formatCurrency StringToNumber
                 (nullish (withdrawable s) (ofLength 0)) in
      let t := formatCurrency StringToNumber
                 (nullish (totalPositionValue s) (ofLength 0)) in
      match formatNumber StringToNumber (positionsLength s)
              {| minimumFractionDigits := Some 0%nat;
                 maximumFractionDigits := Some 0%nat |} with
      | Returns h =>
          Cards
            [ {| title := "Account Equity"; cardValue := e;
                 hint := "Account value reported by Hyperliquid" |};
              {| title := "Withdrawable"; cardValue := w;
                 hint := "Funds available for withdrawal" |};
              {| title := "Open Position Value"; cardValue := t;
                 hint := "Sum of absolute position notionals" |};
              {| title := "Positions Held"; cardValue := h;
                 hint := "Distinct markets with exposure" |} ]
      | Throws name => Raised name
      end
  end.

(** The leverage cell of [PositionsTable]:
    [position.leverage ? `${formatNumber(position.leverage, {...})}x` : 'N/A']. *)
Definition leverageCell (leverage : value) : outcome :=
  if truthy leverage then
    match formatNumber StringToNumber leverage
            {| minimumFractionDigits := Some 2%nat;
               maximumFractionDigits := Some 2%nat |} with
    | Returns s => Returns (s ++ "x")
    | Throws name => Throws name
    end
  else Returns "N/A".

End Rendering.

(** The [value]s of the [<option>]s of [WalletSelector]: a placeholder with
    the empty value when there is no wallet, then one option per wallet. *)
Definition optionValues (wallets : list string) : list string :=
  (match wallets with [] => [""] | _ :: _ => [] end ++ wallets)%list.

(** [disabled={!value}] on the Refresh button. *)
Definition refreshDisabled (value : string) : bool := value =? "".

Section Wiring.

Context {Summary Fill : Type}.

(** What [Dashboard] lets happen to the hook it mounts: [onChange] hands
    the chosen option's value to [setSelectedWallet], [onRefresh] is
    [refresh] behind the button, and [reloadWallets] is not used. *)
Definition dashboardAllows (st : State Summary Fill)
    (ev : Event Summary Fill) : bool :=
  match ev with
  | SelectWallet w => existsb (String.eqb w) (optionValues (wallets st))
  | Refresh => negb (refreshDisabled (selectedWallet st))
  | ReloadWallets => false
  | _ => true
  end.

(** States the hook can be in under [Dashboard]. *)
Inductive dashboardReachable : State Summary Fill -> Prop :=
| dashboard_mounted : dashboardReachable mounted
| dashboard_step st ev st' :
    dashboardReachable st -> dashboardAllows st ev = true ->
    step st ev = Some st' -> dashboardReachable st'.

(** The interval, when installed, belongs to the current selection and is
    due within one period; none is installed while nothing is selected. *)
Definition timerTracksSelection (st : State Summary Fill) : Prop :=
  match timer st with
  | None => selectedWallet st = ""
  | Some (a, due) =>
      a = selectedWallet st /\ a <> ""
      /\ (now st <= due <= now st + REFRESH_INTERVAL)%Z
  end.

Variable Position : Type.

(** The field [positions] of a summary, when present. *)
Variable summaryPositions : Summary -> option (list Position).

(** [positions = summary?.positions || []], the memo of the hook. *)
Definition hookPositions (st : State Summary Fill) : list Position :=
  match summary st with
  | Some s =>
      match summaryPositions s with Some l => l | None => [] end
  | None => []
  end.

End Wiring.

End Components.

(* ================================================================== *)
(** ** More concrete data *)
(* ================================================================== *)

Module Fixtures.

Import Format.
Import Engine.
Import Examples.
Import Client.
Import Components.

Definition bearer : obj field :=
  prop "headers" (Headers (prop "Authorization" "Bearer t")).

Definition bareSummary : SummaryObject string :=
  {| equity := VUndefined; balance := VNull; withdrawable := VUndefined;
     totalPositionValue := VNum (Finite (12345 # 10));
     positions := Some ["ETH"; "BTC"] |}.

Definition samplePositions (s : SampleSummary) : option (list string) :=
  Some (Examples.positions s).

(** ["0xA"] is loaded and [reloadWallets()] has been called. *)
Definition reloading : Session := runFrom loadedA [ReloadWallets].

(** The summary of the first call for ["0xA"] has arrived, its fills have
    not. *)
Definition summaryArrived : Session :=
  runFrom selectedA [SummarySettled 0 (Fulfilled summaryA)].

End Fixtures.

Import Format.
Import Engine.
Import Examples.

(* ================================================================== *)
(** ** Properties of the formatters *)
(* ================================================================== *)

Section FormatFacts.

Variable StringToNumber : string -> number.

Lemma isDigit_notN a : isDigit a -> notN a.
Proof.
  intros [k [Hk ->]].
  do 10 (destruct k as [|k]; [intro H; discriminate H|]).
  lia.
Qed.

Lemma digitChar_isDigit d : isDigit (digitChar d).
Proof.
  exists (Z.to_nat (d mod 10)). split; [|reflexivity].
  pose proof (Z.mod_pos_bound d 10 ltac:(lia)). lia.
Qed.

Lemma uint_digits_notN u :
  Forall notN (list_ascii_of_string (NilEmpty.string_of_uint u)).
Proof.
  induction u; simpl; constructor; try assumption; intro H; discriminate H.
Qed.

Lemma integerDigits_notN mx scaled : Forall notN (integerDigits mx scaled).
Proof.
  unfold integerDigits, NilZero.string_of_uint.
  destruct (N.to_uint _) as [|u|u|u|u|u|u|u|u|u|u];
    try apply uint_digits_notN.
  simpl. constructor; [intro H; discriminate H | constructor].
Qed.

Lemma groupRev_notN l : forall n, Forall notN l -> Forall notN (groupRev n l).
Proof.
  induction l as [|d rest IH]; intros n H; simpl; [constructor|].
  inversion H as [|? ? Hd Hrest]; subst.
  destruct rest as [|d' rest'].
  - destruct n; constructor; auto.
  - destruct n.
    + constructor; [assumption|].
      constructor; [intro E; discriminate E|].
      apply IH; assumption.
    + constructor; [assumption|]. apply IH; assumption.
Qed.

Lemma groupedInteger_notN mx scaled :
  Forall notN (list_ascii_of_string (groupedInteger mx scaled)).
Proof.
  unfold groupedInteger. rewrite list_ascii_of_string_of_list_ascii.
  apply Forall_rev, groupRev_notN, Forall_rev, integerDigits_notN.
Qed.

Lemma fractionPart_shape mn mx scaled :
  fractionPart mn mx scaled = ""
  \/ exists rest, fractionPart mn mx scaled = String "."%char rest.
Proof.
  unfold fractionPart. destruct (fractionDigits mn mx scaled).
  - now left.
  - right. eexists. reflexivity.
Qed.

Lemma notN_prefix_not_NA (g rest : string) :
  Forall notN (list_ascii_of_string g) ->
  (rest = "" \/ exists r, rest = String "."%char r) ->
  g ++ rest <> "N/A".
Proof.
  intros Hg Hrest. destruct g as [|a g'].
  - simpl. destruct Hrest as [-> | [r ->]]; intro H; discriminate H.
  - simpl in *. inversion Hg as [|? ? Ha _]; subst.
    intro H. injection H as H1 _. exact (Ha H1).
Qed.

(** A formatter built by [Intl.NumberFormat] never renders a number other
    than [NaN] as the text ["N/A"]. *)
Lemma format_not_NA mn mx n : n <> NaN -> format mn mx n <> "N/A".
Proof.
  intros Hn. destruct n as [|neg|q|].
  2: destruct neg; intro H; discriminate H.
  3: intro H; discriminate H.
  - contradiction.
  - unfold format, signOf. destruct (Qnum q <? 0)%Z.
    + intro H; discriminate H.
    + simpl. apply notN_prefix_not_NA.
      * apply groupedInteger_notN.
      * apply fractionPart_shape.
Qed.

Lemma fractionPart_two scaled :
  exists d1 d2, isDigit d1 /\ isDigit d2 /\
    fractionPart 2 2 scaled = String "."%char (String d1 (String d2 "")).
Proof.
  exists (digitChar ((scaled mod 10 ^ Z.of_nat 2) / 10)),
         (digitChar (scaled mod 10 ^ Z.of_nat 2)).
  split; [apply digitChar_isDigit|]. split; [apply digitChar_isDigit|].
  unfold fractionPart, fractionDigits.
  cbn [lowDigits app rev stripZeros List.length Nat.ltb Nat.leb andb].
  reflexivity.
Qed.

Lemma notApplicable_spec v :
  notApplicable StringToNumber v = true <->
  v = VNull \/ v = VUndefined \/ Number StringToNumber v = NaN.
Proof.
  split.
  - destruct v as [| |b|n|s]; simpl; auto.
    + destruct b; discriminate.
    + destruct n; simpl; auto; discriminate.
    + destruct (StringToNumber s); simpl; auto; discriminate.
  - intros [-> | [-> | H]]; try reflexivity.
    destruct v as [| |b|n|s]; simpl in *; try reflexivity.
    + destruct b; discriminate.
    + now rewrite H.
    + now rewrite H.
Qed.

Lemma notApplicable_false v :
  notApplicable StringToNumber v = false -> Number StringToNumber v <> NaN.
Proof.
  intros H E.
  assert (notApplicable StringToNumber v = true)
    by (apply notApplicable_spec; auto).
  congruence.
Qed.

(** C8 (as the code has it).  [formatCurrency(v)] is the text ["N/A"]
    exactly when [v] is [null] or [undefined] or [Number(v)] is [NaN]; in
    every other case, infinities included, it is ["$"] followed by the
    rendering of [Number(v)] by the 2-digit formatter, which for a finite
    number is sign, grouped integer part, a point and two digits.
    [formatCurrency(null)] is ["N/A"] and [formatCurrency(1234.5)] is
    ["$1,234.50"]; the digits [String(x)] prints are what is rounded, half
    away from zero ([1.005] gives ["$1.01"], [0.995] gives ["$1.00"]), and
    negative zero keeps its sign (["$-0.00"]).  The function is total on
    these values and its formatter is built with consistent digit options:
    no case throws. *)
Theorem formatCurrency_spec (v : value) :
  (formatCurrency StringToNumber v = "N/A" <->
     v = VNull \/ v = VUndefined \/ Number StringToNumber v = NaN)
  /\ (formatCurrency StringToNumber v <> "N/A" ->
      formatCurrency StringToNumber v
        = "$" ++ format 2 2 (Number StringToNumber v))
  /\ (forall q, v <> VNull -> Number StringToNumber v = Finite q ->
      exists d1 d2, isDigit d1 /\ isDigit d2 /\
        formatCurrency StringToNumber v
          = "$" ++ signOf q ++ groupedInteger 2 (scaledMagnitude 2 q)
                ++ String "."%char (String d1 (String d2 "")))
  /\ formatCurrency StringToNumber VNull = "N/A"
  /\ formatCurrency StringToNumber (VNum (Finite (12345 # 10))) = "$1,234.50"
  /\ formatCurrency StringToNumber (VNum (Finite (1005 # 1000))) = "$1.01"
  /\ formatCurrency StringToNumber (VNum (Finite (995 # 1000))) = "$1.00"
  /\ formatCurrency StringToNumber (VNum (Finite (-1 # 1000))) = "$-0.00"
  /\ formatCurrency StringToNumber (VNum NegativeZero) = "$-0.00"
  /\ validDigits 2 2 = true.
Proof.
  split; [|split; [|split; [|repeat split]]].
  - unfold formatCurrency.
    destruct (notApplicable StringToNumber v) eqn:E.
    + split; [intros _; now apply notApplicable_spec | reflexivity].
    + split.
      * intro H; discriminate H.
      * intro H. apply notApplicable_spec in H. congruence.
  - unfold formatCurrency, numberFormatter.
    destruct (notApplicable StringToNumber v); [congruence | reflexivity].
  - intros q Hnull Hq. unfold formatCurrency, numberFormatter.
    destruct (notApplicable StringToNumber v) eqn:E.
    + apply notApplicable_spec in E.
      destruct E as [E | [E | E]]; [contradiction | subst v; discriminate Hq
                                    | congruence].
    + rewrite Hq. unfold format.
      destruct (fractionPart_two (scaledMagnitude 2 q))
        as [d1 [d2 [H1 [H2 H]]]].
      exists d1, d2. rewrite H. auto.
Qed.

(** C10.  A string whose coercion [Number(s)] is not [NaN] is formatted as
    that number by [formatCurrency], [formatNumber] and [formatPrice], and
    none of them answers ["N/A"], whatever the options of [formatNumber];
    the empty string coerces to 0, so [formatCurrency("")] is ["$0.00"]. *)
Theorem formatters_coerce_strings (s : string) :
  StringToNumber s <> NaN ->
  formatCurrency StringToNumber (VStr s) = "$" ++ format 2 2 (StringToNumber s)
  /\ formatNumber StringToNumber (VStr s) noOptions
       = Returns (format 2 2 (StringToNumber s))
  /\ formatPrice StringToNumber (VStr s) = format 2 4 (StringToNumber s)
  /\ formatCurrency StringToNumber (VStr s) <> "N/A"
  /\ (forall options,
        formatNumber StringToNumber (VStr s) options <> Returns "N/A")
  /\ formatPrice StringToNumber (VStr s) <> "N/A"
  /\ (StringToNumber "" = Finite 0 ->
      formatCurrency StringToNumber (VStr "") = "$0.00"
      /\ formatCurrency StringToNumber (VStr "") <> "N/A").
Proof.
  intros Hs.
  assert (G : notApplicable StringToNumber (VStr s) = false).
  { simpl. destruct (StringToNumber s); simpl; congruence. }
  unfold formatCurrency, formatNumber, formatPrice, numberFormatter,
    priceFormatter.
  rewrite G. cbn [Number orDefault noOptions minimumFractionDigits
                  maximumFractionDigits validDigits Nat.leb andb].
  repeat split.
  - intro H; discriminate H.
  - intro options. destruct (validDigits _ _); [|intro H; discriminate H].
    intro H. injection H as H. revert H. now apply format_not_NA.
  - now apply format_not_NA.
  - simpl. rewrite H. reflexivity.
  - simpl. rewrite H. intro E; discriminate E.
Qed.

End FormatFacts.

(** C10 at the empty string. *)
Lemma formatters_coerce_strings_witness :
  sampleStringToNumber "" <> NaN
  /\ formatCurrency sampleStringToNumber (VStr "") = "$0.00".
Proof.
  assert (H1 : sampleStringToNumber "" <> NaN) by (intro H; discriminate H).
  split; [exact H1|].
  exact (proj1 (proj2 (proj2 (proj2 (proj2 (proj2 (proj2
    (formatters_coerce_strings sampleStringToNumber "" H1)))))) eq_refl)).
Defined.

(** C8 as stated fails at [Infinity]: it is not a finite number, and
    [formatCurrency(Infinity)] is ["$∞"], not ["N/A"]. *)
Lemma formatCurrency_infinity_not_NA :
  isFinite (Number sampleStringToNumber (VNum (Infinity false))) = false
  /\ formatCurrency sampleStringToNumber (VNum (Infinity false)) = "$∞"
  /\ formatCurrency sampleStringToNumber (VNum (Infinity false)) <> "N/A"
  /\ ~ (forall v, formatCurrency sampleStringToNumber v = "N/A" <->
          (v = VNull \/ v = VUndefined
           \/ isFinite (Number sampleStringToNumber v) = false)).
Proof.
  split; [reflexivity|]. split; [reflexivity|].
  split; [intro H; discriminate H|].
  intro H. destruct (H (VNum (Infinity false))) as [_ H'].
  assert (E : formatCurrency sampleStringToNumber (VNum (Infinity false)) = "N/A")
    by (apply H'; right; right; reflexivity).
  discriminate E.
Qed.

(* ================================================================== *)
(** ** Properties of the hook *)
(* ================================================================== *)

Section EngineFacts.

Context {Summary Fill : Type}.

Local Abbreviation St := (State Summary Fill).
Local Abbreviation Ev := (Event Summary Fill).
Local Abbreviation Cy := (Cycle Summary Fill).

Lemma orText_message m fallback :
  m <> "" -> orText (Some m) fallback = m.
Proof.
  intro H. unfold orText. destruct (String.eqb_spec m ""); congruence.
Qed.

Lemma statusMessage_nonempty status : statusMessage status <> "".
Proof. intro H; discriminate H. Qed.

(** A rejection [request] raises itself for a response that is not [ok]
    always carries a non-empty message. *)
Lemma request_error_message {Body : Type} ok status statusText text
    (json : settled (option Body)) :
  ok = false ->
  exists m, m <> ""
    /\ request (Response ok status statusText text json)
       = Rejected {| message := Some m |}.
Proof.
  intros ->. simpl.
  destruct text as [t|e]; simpl.
  - destruct (String.eqb_spec t "").
    + eexists; split; [apply (statusMessage_nonempty status) | reflexivity].
    + eexists; split; [eassumption | reflexivity].
  - destruct (String.eqb_spec statusText "").
    + eexists; split; [apply (statusMessage_nonempty status) | reflexivity].
    + eexists; split; [eassumption | reflexivity].
Qed.

(* ------------------------------------------------------------------ *)
(** *** Looking up suspended calls *)
(* ------------------------------------------------------------------ *)

Lemma findCycle_id id (cs : list Cy) c :
  findCycle id cs = Some c -> cycleId c = id.
Proof.
  induction cs as [|x rest IH]; simpl; [discriminate|].
  destruct (Nat.eqb_spec (cycleId x) id); [|exact IH].
  intro H; injection H as <-; assumption.
Qed.

Lemma findCycle_fresh id (cs : list Cy) :
  Forall (fun c => (cycleId c < id)%nat) cs -> findCycle id cs = None.
Proof.
  induction 1 as [|x rest Hx _ IH]; simpl; [reflexivity|].
  destruct (Nat.eqb_spec (cycleId x) id); [lia | exact IH].
Qed.

Lemma findCycle_new id a (cs : list Cy) :
  Forall (fun c => (cycleId c < id)%nat) cs ->
  findCycle id (cs ++ [newCycle id a]) = Some (newCycle id a).
Proof.
  induction 1 as [|x rest Hx _ IH]; simpl.
  - now rewrite Nat.eqb_refl.
  - destruct (Nat.eqb_spec (cycleId x) id); [lia | exact IH].
Qed.

Lemma findCycle_replace (c c' : Cy) (cs : list Cy) :
  findCycle (cycleId c') cs = Some c ->
  findCycle (cycleId c') (replaceCycle c' cs) = Some c'.
Proof.
  induction cs as [|x rest IH]; simpl; [discriminate|].
  destruct (Nat.eqb_spec (cycleId x) (cycleId c')) as [E|E]; simpl.
  - intros _. now rewrite Nat.eqb_refl.
  - intro H. destruct (Nat.eqb_spec (cycleId x) (cycleId c')); [contradiction|].
    now apply IH.
Qed.

Lemma replaceCycle_Forall (P : Cy -> Prop) (c' : Cy) (cs : list Cy) :
  P c' -> Forall P cs -> Forall P (replaceCycle c' cs).
Proof.
  intros Hc. induction 1 as [|x rest Hx Hrest IH]; simpl; [constructor|].
  destruct (cycleId x =? cycleId c')%nat; constructor; assumption.
Qed.

(* ------------------------------------------------------------------ *)
(** *** What [loadData] and the selection effect leave alone *)
(* ------------------------------------------------------------------ *)

Lemma loadData_nonempty a (st : St) :
  a <> "" ->
  loadData a st
  = setNextId (S (nextId st))
      (setCycles (cycles st ++ [newCycle (nextId st) a])
         (setError "" (setLoading true st))).
Proof.
  intro H. unfold loadData. destruct (String.eqb_spec a ""); [contradiction|].
  reflexivity.
Qed.

Lemma loadData_selection a (st : St) :
  selectedWallet (loadData a st) = selectedWallet st
  /\ wallets (loadData a st) = wallets st
  /\ timer (loadData a st) = timer st
  /\ now (loadData a st) = now st
  /\ walletRequests (loadData a st) = walletRequests st.
Proof. unfold loadData. destruct (a =? ""); repeat split. Qed.

Lemma selectionEffect_selection previous (st : St) :
  selectedWallet (selectionEffect previous st) = selectedWallet st
  /\ wallets (selectionEffect previous st) = wallets st.
Proof.
  unfold selectionEffect.
  destruct (selectedWallet st =? previous); [now split|].
  cbn [selectedWallet setTimer].
  destruct (selectedWallet st =? ""); [now split|].
  cbn [selectedWallet wallets setTimer].
  destruct (loadData_selection (selectedWallet st) (setTimer None st))
    as [H1 [H2 _]].
  now rewrite H1, H2.
Qed.

Lemma settleCycle_selection (c c' : Cy) r (st : St) :
  selectedWallet (settleCycle c c' r st) = selectedWallet st
  /\ wallets (settleCycle c c' r st) = wallets st.
Proof.
  unfold settleCycle. destruct (finished c); [now split|].
  destruct r as [e|]; [now split|].
  destruct (summarySlot c') as [|s|]; try now split.
  destruct (fillsSlot c') as [|f|]; try now split.
  unfold loadDataResume. destruct f; now split.
Qed.

Lemma reconcile_valid current (list : list string) :
  reconcile current list = "" \/ In (reconcile current list) list.
Proof.
  unfold reconcile.
  destruct (negb (current =? "") && existsb (String.eqb current) list) eqn:E.
  - right. apply andb_prop in E as [_ E].
    apply existsb_exists in E as [x [Hin Hx]].
    apply String.eqb_eq in Hx. now subst.
  - destruct list as [|w rest]; [now left | right; now left].
Qed.

Lemma reconcile_member current (list : list string) :
  current <> "" -> In current list -> reconcile current list = current.
Proof.
  intros Hne Hin. unfold reconcile.
  destruct (String.eqb_spec current ""); [contradiction|]. simpl.
  replace (existsb (String.eqb current) list) with true; [reflexivity|].
  symmetry. apply existsb_exists. exists current. split; [assumption|].
  apply String.eqb_refl.
Qed.

Lemma reconcile_other current (list : list string) :
  current = "" \/ ~ In current list -> reconcile current list = hd "" list.
Proof.
  intros H. unfold reconcile.
  destruct (negb (current =? "") && existsb (String.eqb current) list) eqn:E;
    [|reflexivity].
  apply andb_prop in E as [E1 E2]. exfalso.
  destruct H as [-> | H]; [discriminate E1|].
  apply existsb_exists in E2 as [x [Hin Hx]].
  apply String.eqb_eq in Hx. subst. contradiction.
Qed.

(** C4.  A wallet-list refresh that succeeds replaces the WalletSet by the
    refreshed list; the Selection is unchanged when it is non-empty and a
    member of the refreshed list, and otherwise becomes the first entry of
    the refreshed list, or empty when that list is empty. *)
Theorem loadWallets_reconciles (st : St) (response : WalletsResponse) :
  walletRequests st <> O ->
  exists st',
    step st (WalletsSettled (Fulfilled (Some response))) = Some st'
    /\ wallets st' = walletsOf response
    /\ (selectedWallet st <> "" ->
        In (selectedWallet st) (walletsOf response) ->
        selectedWallet st' = selectedWallet st)
    /\ (selectedWallet st = "" \/ ~ In (selectedWallet st) (walletsOf response) ->
        selectedWallet st' = hd "" (walletsOf response)
        /\ (walletsOf response = [] -> selectedWallet st' = "")).
Proof.
  intro H. unfold step. destruct (walletRequests st) as [|n]; [contradiction|].
  eexists. split; [reflexivity|].
  unfold loadWalletsResume.
  match goal with |- context [selectionEffect ?p ?s] =>
    destruct (selectionEffect_selection p s) as [E1 E2]; rewrite E1, E2 end.
  cbn [wallets selectedWallet setSelectedWallet setWallets setWalletRequests].
  split; [reflexivity|]. split.
  - apply reconcile_member.
  - intro Hn. rewrite (reconcile_other _ _ Hn). split; [reflexivity|].
    intros ->. reflexivity.
Qed.

(** C9.  When the wallet-list fetch fails, the WalletSet, the Selection and
    everything else but [error] stay as they were; [error] becomes the
    failure's message, or ["Failed to load wallets"] when it carries none. *)
Theorem loadWallets_failure_frame (st : St) (err : JsError) :
  walletRequests st <> O ->
  exists st',
    step st (WalletsSettled (Rejected err)) = Some st'
    /\ wallets st' = wallets st
    /\ selectedWallet st' = selectedWallet st
    /\ summary st' = summary st /\ fills st' = fills st
    /\ loading st' = loading st
    /\ timer st' = timer st /\ cycles st' = cycles st
    /\ error st' = orText (message err) "Failed to load wallets"
    /\ (forall m, message err = Some m -> m <> "" -> error st' = m)
    /\ (message err = None \/ message err = Some "" ->
        error st' = "Failed to load wallets").
Proof.
  intro H. unfold step. destruct (walletRequests st) as [|n]; [contradiction|].
  eexists. split; [reflexivity|]. simpl.
  repeat (split; [reflexivity|]). split.
  - intros m -> Hm. now apply orText_message.
  - intros [-> | ->]; reflexivity.
Qed.

(* ------------------------------------------------------------------ *)
(** *** The Selection constraint *)
(* ------------------------------------------------------------------ *)

Lemma selectionValid_frame (st st' : St) :
  selectedWallet st' = selectedWallet st -> wallets st' = wallets st ->
  selectionValid st -> selectionValid st'.
Proof. unfold selectionValid. intros -> ->. auto. Qed.

(** C5 (as the code has it).  The Selection is empty or a member of the
    WalletSet when the hook mounts, and every transition keeps it so,
    provided the exposed setter is only called with the empty string or a
    member of the current WalletSet; a wallet-list refresh that succeeds
    establishes it whatever the Selection was. *)
Theorem selection_stays_valid (st st' : St) (ev : Ev) :
  selectionValid st ->
  (forall w, ev = SelectWallet w -> w = "" \/ In w (wallets st)) ->
  step st ev = Some st' ->
  selectionValid st'
  /\ selectionValid (@mounted Summary Fill)
  /\ (forall response (st0 st1 : St),
        step st0 (WalletsSettled (Fulfilled (Some response))) = Some st1 ->
        selectionValid st1).
Proof.
  intros Hv Hset Hstep. split; [|split].
  - destruct ev as [|r|w| | |d|id r|id r]; simpl in Hstep.
    + injection Hstep as <-. exact Hv.
    + destruct (walletRequests st) as [|n]; [discriminate|].
      injection Hstep as <-.
      destruct r as [[response|]|e]; simpl; try exact Hv.
      unfold selectionValid.
      match goal with |- context [selectionEffect ?p ?s] =>
        destruct (selectionEffect_selection p s) as [E1 E2]; rewrite E1, E2 end.
      apply reconcile_valid.
    + injection Hstep as <-. unfold selectionValid.
      match goal with |- context [selectionEffect ?p ?s] =>
        destruct (selectionEffect_selection p s) as [E1 E2]; rewrite E1, E2 end.
      simpl. now apply Hset.
    + injection Hstep as <-.
      destruct (loadData_selection (selectedWallet st) st) as [E1 [E2 _]].
      now apply (selectionValid_frame st).
    + destruct (timer st) as [[a due]|]; [|discriminate].
      destruct (now st <=? due)%Z; [|discriminate].
      injection Hstep as <-.
      match goal with |- selectionValid (loadData ?a ?s) =>
        destruct (loadData_selection a s) as [E1 [E2 _]] end.
      now apply (selectionValid_frame st).
    + destruct (_ && _); [|discriminate]. injection Hstep as <-. exact Hv.
    + destruct (findCycle id (cycles st)) as [c|]; [|discriminate].
      destruct (isOutstanding (summarySlot c)); [|discriminate].
      injection Hstep as <-.
      match goal with |- selectionValid (settleCycle ?c ?c' ?r ?s) =>
        destruct (settleCycle_selection c c' r s) as [E1 E2] end.
      now apply (selectionValid_frame st).
    + destruct (findCycle id (cycles st)) as [c|]; [|discriminate].
      destruct (isOutstanding (fillsSlot c)); [|discriminate].
      injection Hstep as <-.
      match goal with |- selectionValid (settleCycle ?c ?c' ?r ?s) =>
        destruct (settleCycle_selection c c' r s) as [E1 E2] end.
      now apply (selectionValid_frame st).
  - now left.
  - intros response st0 st1 H. simpl in H.
    destruct (walletRequests st0) as [|n]; [discriminate|].
    injection H as <-. unfold selectionValid. simpl.
    match goal with |- context [selectionEffect ?p ?s] =>
      destruct (selectionEffect_selection p s) as [E1 E2]; rewrite E1, E2 end.
    apply reconcile_valid.
Qed.

(* ------------------------------------------------------------------ *)
(** *** One settlement of one fetch *)
(* ------------------------------------------------------------------ *)

Lemma replaced_lookup id (c c' : Cy) (cs : list Cy) :
  findCycle id cs = Some c -> cycleId c' = cycleId c ->
  findCycle id (replaceCycle c' cs) = Some c'.
Proof.
  intros H E. pose proof (findCycle_id _ _ _ H) as Hid.
  rewrite <- Hid, <- E. apply (findCycle_replace c). now rewrite E, Hid.
Qed.

(** The first of two fulfilments: [Promise.all] stays pending and nothing
    is written. *)
Lemma summary_fulfilled_first (st : St) id c s :
  findCycle id (cycles st) = Some c -> finished c = false ->
  summarySlot c = Outstanding -> fillsSlot c = Outstanding ->
  exists st1,
    step st (SummarySettled id (Fulfilled s)) = Some st1
    /\ snapshot st1 = snapshot st
    /\ findCycle id (cycles st1) = Some (withSummary (Resolved s) c).
Proof.
  intros Hc Hf Hs Hfl. unfold step. rewrite Hc, Hs. cbn [isOutstanding].
  eexists. split; [reflexivity|].
  unfold settleCycle. rewrite Hf. cbn. rewrite Hfl.
  split; [reflexivity|]. cbn. now apply (replaced_lookup id c).
Qed.

Lemma fills_fulfilled_first (st : St) id c f :
  findCycle id (cycles st) = Some c -> finished c = false ->
  summarySlot c = Outstanding -> fillsSlot c = Outstanding ->
  exists st1,
    step st (FillsSettled id (Fulfilled f)) = Some st1
    /\ snapshot st1 = snapshot st
    /\ findCycle id (cycles st1) = Some (withFills (Resolved f) c).
Proof.
  intros Hc Hf Hs Hfl. unfold step. rewrite Hc, Hfl. cbn [isOutstanding].
  eexists. split; [reflexivity|].
  unfold settleCycle. rewrite Hf. cbn. rewrite Hs.
  split; [reflexivity|]. cbn. now apply (replaced_lookup id c).
Qed.

(** The second fulfilment resumes [loadData]: summary, fills and loading
    are written in that one transition; [error] is not. *)
Lemma fills_fulfilled_last (st : St) id c s f :
  findCycle id (cycles st) = Some c -> finished c = false ->
  summarySlot c = Resolved s -> fillsSlot c = Outstanding ->
  exists st2,
    step st (FillsSettled id (Fulfilled (Some f))) = Some st2
    /\ snapshot st2 = (s, itemsOf f, false, error st)
    /\ selectedWallet st2 = selectedWallet st.
Proof.
  intros Hc Hf Hs Hfl. unfold step. rewrite Hc, Hfl. cbn [isOutstanding].
  eexists. split; [reflexivity|].
  unfold settleCycle. rewrite Hf. cbn. rewrite Hs. split; reflexivity.
Qed.

Lemma summary_fulfilled_last (st : St) id c s f :
  findCycle id (cycles st) = Some c -> finished c = false ->
  summarySlot c = Outstanding -> fillsSlot c = Resolved (Some f) ->
  exists st2,
    step st (SummarySettled id (Fulfilled s)) = Some st2
    /\ snapshot st2 = (s, itemsOf f, false, error st)
    /\ selectedWallet st2 = selectedWallet st.
Proof.
  intros Hc Hf Hs Hfl. unfold step. rewrite Hc, Hs. cbn [isOutstanding].
  eexists. split; [reflexivity|].
  unfold settleCycle. rewrite Hf. cbn. rewrite Hfl. split; reflexivity.
Qed.

(** The first rejection runs [catch] and [finally]: error and loading are
    written, summary and fills are not. *)
Lemma summary_rejected (st : St) id c e :
  findCycle id (cycles st) = Some c -> finished c = false ->
  summarySlot c = Outstanding ->
  exists st1,
    step st (SummarySettled id (Rejected e)) = Some st1
    /\ snapshot st1
       = (summary st, fills st, false,
          orText (message e) "Failed to load wallet data")
    /\ selectedWallet st1 = selectedWallet st
    /\ findCycle id (cycles st1) = Some (finish (withSummary Failed c)).
Proof.
  intros Hc Hf Hs. unfold step. rewrite Hc, Hs. cbn [isOutstanding].
  eexists. split; [reflexivity|].
  unfold settleCycle. rewrite Hf. cbn.
  split; [reflexivity|]. split; [reflexivity|].
  now apply (replaced_lookup id c).
Qed.

Lemma fills_rejected (st : St) id c e :
  findCycle id (cycles st) = Some c -> finished c = false ->
  fillsSlot c = Outstanding ->
  exists st1,
    step st (FillsSettled id (Rejected e)) = Some st1
    /\ snapshot st1
       = (summary st, fills st, false,
          orText (message e) "Failed to load wallet data")
    /\ selectedWallet st1 = selectedWallet st
    /\ findCycle id (cycles st1) = Some (finish (withFills Failed c)).
Proof.
  intros Hc Hf Hs. unfold step. rewrite Hc, Hs. cbn [isOutstanding].
  eexists. split; [reflexivity|].
  unfold settleCycle. rewrite Hf. cbn.
  split; [reflexivity|]. split; [reflexivity|].
  now apply (replaced_lookup id c).
Qed.

(** After [Promise.all] has settled, the other fetch settles unobserved. *)
Lemma summary_settled_late (st : St) id c r :
  findCycle id (cycles st) = Some c -> finished c = true ->
  summarySlot c = Outstanding ->
  exists st1,
    step st (SummarySettled id r) = Some st1 /\ snapshot st1 = snapshot st.
Proof.
  intros Hc Hf Hs. unfold step. rewrite Hc, Hs. cbn [isOutstanding].
  eexists. split; [reflexivity|]. unfold settleCycle. now rewrite Hf.
Qed.

Lemma fills_settled_late (st : St) id c r :
  findCycle id (cycles st) = Some c -> finished c = true ->
  fillsSlot c = Outstanding ->
  exists st1,
    step st (FillsSettled id r) = Some st1 /\ snapshot st1 = snapshot st.
Proof.
  intros Hc Hf Hs. unfold step. rewrite Hc, Hs. cbn [isOutstanding].
  eexists. split; [reflexivity|]. unfold settleCycle. now rewrite Hf.
Qed.

(** A call [loadData(a)] with a non-empty address: loading is set, error is
    cleared, summary and fills stay, and the call is suspended with both
    fetches outstanding. *)
Lemma loadData_starts a (st : St) :
  freshIds st -> a <> "" ->
  snapshot (loadData a st) = (summary st, fills st, true, "")
  /\ cycles (loadData a st) = (cycles st ++ [newCycle (nextId st) a])%list
  /\ findCycle (nextId st) (cycles (loadData a st))
     = Some (newCycle (nextId st) a).
Proof.
  intros Hfresh Ha. rewrite (loadData_nonempty _ _ Ha). cbn.
  split; [reflexivity|]. split; [reflexivity|].
  now apply findCycle_new.
Qed.

(* ------------------------------------------------------------------ *)
(** *** Identifiers of suspended calls stay fresh *)
(* ------------------------------------------------------------------ *)

Lemma freshIds_frame (st st' : St) :
  cycles st' = cycles st -> nextId st' = nextId st ->
  freshIds st -> freshIds st'.
Proof. unfold freshIds. intros -> ->. auto. Qed.

Lemma loadData_freshIds a (st : St) : freshIds st -> freshIds (loadData a st).
Proof.
  intro H. unfold loadData. destruct (a =? ""); [exact H|].
  unfold freshIds in *. cbn. apply Forall_app. split.
  - eapply Forall_impl; [|exact H]. cbn. intros c Hc. lia.
  - constructor; [cbn; lia | constructor].
Qed.

Lemma selectionEffect_freshIds previous (st : St) :
  freshIds st -> freshIds (selectionEffect previous st).
Proof.
  intro H. unfold selectionEffect.
  destruct (selectedWallet st =? previous); [exact H|].
  cbn [selectedWallet setTimer].
  destruct (selectedWallet st =? ""); [exact H|].
  apply (freshIds_frame (loadData (selectedWallet st) (setTimer None st)));
    [reflexivity | reflexivity |].
  now apply loadData_freshIds.
Qed.

Lemma findCycle_In id (cs : list Cy) c : findCycle id cs = Some c -> In c cs.
Proof.
  induction cs as [|x rest IH]; simpl; [discriminate|].
  destruct (cycleId x =? id)%nat.
  - intro H; injection H as ->. now left.
  - intro H. right. now apply IH.
Qed.

Lemma settleCycle_freshIds (c c' : Cy) r (st : St) id :
  findCycle id (cycles st) = Some c -> cycleId c' = cycleId c ->
  freshIds st -> freshIds (settleCycle c c' r st).
Proof.
  intros Hc Hid H.
  assert (Hlt : (cycleId c' < nextId st)%nat).
  { rewrite Hid. unfold freshIds in H. rewrite Forall_forall in H.
    apply H. now apply (findCycle_In id). }
  assert (H1 : forall x : Cy, cycleId x = cycleId c' ->
                 freshIds (setCycles (replaceCycle x (cycles st)) st)).
  { intros x Hx. unfold freshIds. cbn.
    apply replaceCycle_Forall; [now rewrite Hx | exact H]. }
  unfold settleCycle. destruct (finished c); [now apply H1|].
  destruct r as [e|].
  - apply (freshIds_frame (setCycles (replaceCycle (finish c') (cycles st)) st));
      [reflexivity | reflexivity | now apply H1].
  - destruct (summarySlot c') as [|s|]; try now apply H1.
    destruct (fillsSlot c') as [|f|]; try now apply H1.
    apply (freshIds_frame (setCycles (replaceCycle (finish c') (cycles st)) st));
      [ | | now apply H1]; unfold loadDataResume; destruct f; reflexivity.
Qed.

Lemma step_freshIds (st st' : St) (ev : Ev) :
  freshIds st -> step st ev = Some st' -> freshIds st'.
Proof.
  intros H Hstep.
  destruct ev as [|r|w| | |d|id r|id r]; simpl in Hstep.
  - injection Hstep as <-. exact H.
  - destruct (walletRequests st) as [|n]; [discriminate|].
    injection Hstep as <-.
    destruct r as [[response|]|e]; simpl; try exact H.
    now apply selectionEffect_freshIds.
  - injection Hstep as <-. now apply selectionEffect_freshIds.
  - injection Hstep as <-. now apply loadData_freshIds.
  - destruct (timer st) as [[a due]|]; [|discriminate].
    destruct (now st <=? due)%Z; [|discriminate].
    injection Hstep as <-. now apply loadData_freshIds.
  - destruct (_ && _); [|discriminate]. injection Hstep as <-. exact H.
  - destruct (findCycle id (cycles st)) as [c|] eqn:Hc; [|discriminate].
    destruct (isOutstanding (summarySlot c)); [|discriminate].
    injection Hstep as <-. now apply (settleCycle_freshIds c _ _ st id).
  - destruct (findCycle id (cycles st)) as [c|] eqn:Hc; [|discriminate].
    destruct (isOutstanding (fillsSlot c)); [|discriminate].
    injection Hstep as <-. now apply (settleCycle_freshIds c _ _ st id).
Qed.

Lemma reachable_freshIds (st : St) : reachable st -> freshIds st.
Proof.
  induction 1 as [|st ev st' _ IH Hstep].
  - constructor.
  - exact (step_freshIds st st' ev IH Hstep).
Qed.

Lemma run_reachable (evs : list Ev) : forall st st' : St,
  reachable st -> run st evs = Some st' -> reachable st'.
Proof.
  induction evs as [|ev rest IH]; intros st st' Hr Hrun; simpl in Hrun.
  - injection Hrun as <-. exact Hr.
  - destruct (step st ev) as [st1|] eqn:E; [|discriminate].
    apply (IH st1); [|exact Hrun]. exact (reachable_step st ev st1 Hr E).
Qed.

(* ------------------------------------------------------------------ *)
(** *** Poll cycles *)
(* ------------------------------------------------------------------ *)

(** C2 (as the code has it).  Take a poll cycle [loadData(a)] on a
    non-empty address from a state the hook can be in, [started] being the
    state once the call is suspended.  If both fetches succeed and the
    fills response is an object, then, in either order of arrival and with
    nothing else in between, the first arrival changes nothing of the
    Snapshot and the second replaces it, in one transition, by
    [(summary response, items or [], false, "")].  With
    other events in between, the completing transition still writes
    summary, fills and [loading = false] together, and leaves [error] as it
    finds it: it is empty only if nothing has set it since the cycle
    started. *)
Theorem successful_cycle_snapshot (st started : St) (a : string)
    (s : option Summary) (f : FillsResponse Fill) :
  reachable st -> a <> "" ->
  cycles started = cycles (loadData a st) ->
  snapshot started = snapshot (loadData a st) ->
  snapshot started = (summary st, fills st, true, "")
  /\ (exists st1 st2,
        step started (SummarySettled (nextId st) (Fulfilled s)) = Some st1
        /\ snapshot st1 = snapshot started
        /\ step st1 (FillsSettled (nextId st) (Fulfilled (Some f))) = Some st2
        /\ snapshot st2 = (s, itemsOf f, false, ""))
  /\ (exists st1 st2,
        step started (FillsSettled (nextId st) (Fulfilled (Some f))) = Some st1
        /\ snapshot st1 = snapshot started
        /\ step st1 (SummarySettled (nextId st) (Fulfilled s)) = Some st2
        /\ snapshot st2 = (s, itemsOf f, false, ""))
  /\ (forall (later : St) id c,
        findCycle id (cycles later) = Some c -> finished c = false ->
        (summarySlot c = Resolved s -> fillsSlot c = Outstanding ->
         exists st2,
           step later (FillsSettled id (Fulfilled (Some f))) = Some st2
           /\ snapshot st2 = (s, itemsOf f, false, error later))
        /\ (summarySlot c = Outstanding -> fillsSlot c = Resolved (Some f) ->
            exists st2,
              step later (SummarySettled id (Fulfilled s)) = Some st2
              /\ snapshot st2 = (s, itemsOf f, false, error later))).
Proof.
  intros Hreach Ha Hcycles Hsnap.
  pose proof (reachable_freshIds st Hreach) as Hfresh.
  destruct (loadData_starts a st Hfresh Ha) as [Hs0 [_ Hfind]].
  rewrite <- Hcycles in Hfind. rewrite Hs0 in Hsnap.
  assert (Herr : error started = "").
  { unfold snapshot in Hsnap. now injection Hsnap. }
  split; [exact Hsnap|]. split; [|split].
  - destruct (summary_fulfilled_first started _ _ s Hfind eq_refl eq_refl eq_refl)
      as [st1 [H1 [H2 H3]]].
    destruct (fills_fulfilled_last st1 _ _ s f H3 eq_refl eq_refl eq_refl)
      as [st2 [H4 [H5 _]]].
    exists st1, st2. repeat (split; [assumption|]).
    rewrite H5. unfold snapshot in H2. injection H2 as _ _ _ He.
    now rewrite He, Herr.
  - destruct (fills_fulfilled_first started _ _ (Some f) Hfind
                eq_refl eq_refl eq_refl) as [st1 [H1 [H2 H3]]].
    destruct (summary_fulfilled_last st1 _ _ s f H3 eq_refl eq_refl eq_refl)
      as [st2 [H4 [H5 _]]].
    exists st1, st2. repeat (split; [assumption|]).
    rewrite H5. unfold snapshot in H2. injection H2 as _ _ _ He.
    now rewrite He, Herr.
  - intros later id c Hc Hfin. split.
    + intros H1 H2.
      destruct (fills_fulfilled_last later id c s f Hc Hfin H1 H2)
        as [st2 [H3 [H4 _]]].
      now exists st2.
    + intros H1 H2.
      destruct (summary_fulfilled_last later id c s f Hc Hfin H1 H2)
        as [st2 [H3 [H4 _]]].
      now exists st2.
Qed.

(** C3.  Take a poll cycle [loadData(a)] on a non-empty address from a state
    the hook can be in, [started] being the state once the call is
    suspended, and let a fetch fail with message [m].  Whichever fetch
    fails first, and whether the other one has succeeded before, fails
    later or succeeds later, the cycle ends with
    [error = m] (the first failure's message), [loading = false], and
    summary and fills as they were before the cycle; a later settlement of
    the other fetch changes nothing.  In any later state as well, the
    failing transition writes error and loading only. *)
Theorem failed_cycle_retains_data (st started : St) (a m : string)
    (e : JsError) :
  reachable st -> a <> "" ->
  cycles started = cycles (loadData a st) ->
  snapshot started = snapshot (loadData a st) ->
  message e = Some m -> m <> "" ->
  (forall r, exists st1 st2,
      step started (SummarySettled (nextId st) (Rejected e)) = Some st1
      /\ snapshot st1 = (summary st, fills st, false, m)
      /\ step st1 (FillsSettled (nextId st) r) = Some st2
      /\ snapshot st2 = (summary st, fills st, false, m))
  /\ (forall r, exists st1 st2,
      step started (FillsSettled (nextId st) (Rejected e)) = Some st1
      /\ snapshot st1 = (summary st, fills st, false, m)
      /\ step st1 (SummarySettled (nextId st) r) = Some st2
      /\ snapshot st2 = (summary st, fills st, false, m))
  /\ (forall s, exists st1 st2,
      step started (SummarySettled (nextId st) (Fulfilled s)) = Some st1
      /\ snapshot st1 = (summary st, fills st, true, "")
      /\ step st1 (FillsSettled (nextId st) (Rejected e)) = Some st2
      /\ snapshot st2 = (summary st, fills st, false, m))
  /\ (forall f, exists st1 st2,
      step started (FillsSettled (nextId st) (Fulfilled f)) = Some st1
      /\ snapshot st1 = (summary st, fills st, true, "")
      /\ step st1 (SummarySettled (nextId st) (Rejected e)) = Some st2
      /\ snapshot st2 = (summary st, fills st, false, m))
  /\ (forall (later : St) id c,
        findCycle id (cycles later) = Some c -> finished c = false ->
        (summarySlot c = Outstanding ->
         exists st2,
           step later (SummarySettled id (Rejected e)) = Some st2
           /\ snapshot st2 = (summary later, fills later, false, m))
        /\ (fillsSlot c = Outstanding ->
            exists st2,
              step later (FillsSettled id (Rejected e)) = Some st2
              /\ snapshot st2 = (summary later, fills later, false, m))).
Proof.
  intros Hreach Ha Hcycles Hsnap Hm Hne.
  pose proof (reachable_freshIds st Hreach) as Hfresh.
  destruct (loadData_starts a st Hfresh Ha) as [Hs0 [_ Hfind]].
  rewrite <- Hcycles in Hfind. rewrite Hs0 in Hsnap.
  assert (Hmsg : orText (message e) "Failed to load wallet data" = m).
  { rewrite Hm. now apply orText_message. }
  assert (Hsum : summary started = summary st /\ fills started = fills st).
  { unfold snapshot in Hsnap. injection Hsnap as -> -> _ _. now split. }
  destruct Hsum as [Hsum Hfil].
  split; [|split; [|split; [|split]]].
  - intro r.
    destruct (summary_rejected started _ _ e Hfind eq_refl eq_refl)
      as [st1 [H1 [H2 [_ H3]]]].
    destruct (fills_settled_late st1 _ _ r H3 eq_refl eq_refl)
      as [st2 [H4 H5]].
    exists st1, st2. rewrite H5, H2, Hmsg, Hsum, Hfil. auto.
  - intro r.
    destruct (fills_rejected started _ _ e Hfind eq_refl eq_refl)
      as [st1 [H1 [H2 [_ H3]]]].
    destruct (summary_settled_late st1 _ _ r H3 eq_refl eq_refl)
      as [st2 [H4 H5]].
    exists st1, st2. rewrite H5, H2, Hmsg, Hsum, Hfil. auto.
  - intro s.
    destruct (summary_fulfilled_first started _ _ s Hfind
                eq_refl eq_refl eq_refl) as [st1 [H1 [H2 H3]]].
    destruct (fills_rejected st1 _ _ e H3 eq_refl eq_refl)
      as [st2 [H4 [H5 _]]].
    exists st1, st2. rewrite H5, Hmsg. rewrite H2, Hsnap.
    repeat (split; [assumption || reflexivity|]).
    unfold snapshot in H2. injection H2 as -> -> _ _.
    now rewrite Hsum, Hfil.
  - intro f.
    destruct (fills_fulfilled_first started _ _ f Hfind
                eq_refl eq_refl eq_refl) as [st1 [H1 [H2 H3]]].
    destruct (summary_rejected st1 _ _ e H3 eq_refl eq_refl)
      as [st2 [H4 [H5 _]]].
    exists st1, st2. rewrite H5, Hmsg. rewrite H2, Hsnap.
    repeat (split; [assumption || reflexivity|]).
    unfold snapshot in H2. injection H2 as -> -> _ _.
    now rewrite Hsum, Hfil.
  - intros later id c Hc Hfin. split; intro Hout.
    + destruct (summary_rejected later id c e Hc Hfin Hout)
        as [st2 [H1 [H2 _]]].
      exists st2. now rewrite H2, Hmsg.
    + destruct (fills_rejected later id c e Hc Hfin Hout)
        as [st2 [H1 [H2 _]]].
      exists st2. now rewrite H2, Hmsg.
Qed.

(** C1 (as the code has it).  The hook has no generation check.  A
    selection change cancels the interval of the previous selection and
    leaves its suspended calls suspended; when such a call settles after the
    change it is applied like any other: on success it writes summary, fills
    and [loading = false], on failure it writes error and
    [loading = false].  So the Snapshot reflects the call that settled
    last, whichever selection it was issued for. *)
Theorem superseded_fetch_is_applied (st : St) (id : nat) (c : Cy) :
  findCycle id (cycles st) = Some c ->
  finished c = false ->
  address c <> selectedWallet st ->
  (forall s f, summarySlot c = Resolved s -> fillsSlot c = Outstanding ->
     exists st',
       step st (FillsSettled id (Fulfilled (Some f))) = Some st'
       /\ snapshot st' = (s, itemsOf f, false, error st)
       /\ selectedWallet st' = selectedWallet st)
  /\ (forall s f, summarySlot c = Outstanding ->
      fillsSlot c = Resolved (Some f) ->
      exists st',
        step st (SummarySettled id (Fulfilled s)) = Some st'
        /\ snapshot st' = (s, itemsOf f, false, error st)
        /\ selectedWallet st' = selectedWallet st)
  /\ (forall e, summarySlot c = Outstanding ->
      exists st',
        step st (SummarySettled id (Rejected e)) = Some st'
        /\ snapshot st'
           = (summary st, fills st, false,
              orText (message e) "Failed to load wallet data")
        /\ selectedWallet st' = selectedWallet st)
  /\ (forall e, fillsSlot c = Outstanding ->
      exists st',
        step st (FillsSettled id (Rejected e)) = Some st'
        /\ snapshot st'
           = (summary st, fills st, false,
              orText (message e) "Failed to load wallet data")
        /\ selectedWallet st' = selectedWallet st)
  /\ (forall (before : St) w, w <> selectedWallet before ->
      exists st' started,
        step before (SelectWallet w) = Some st'
        /\ selectedWallet st' = w
        /\ timer st'
           = (if w =? "" then None
              else Some (w, now before + REFRESH_INTERVAL)%Z)
        /\ cycles st' = (cycles before ++ started)%list).
Proof.
  intros Hc Hfin _. split; [|split; [|split; [|split]]].
  - intros s f H1 H2. now apply (fills_fulfilled_last st id c).
  - intros s f H1 H2. now apply (summary_fulfilled_last st id c).
  - intros e H1.
    destruct (summary_rejected st id c e Hc Hfin H1) as [st' [H2 [H3 [H4 _]]]].
    now exists st'.
  - intros e H1.
    destruct (fills_rejected st id c e Hc Hfin H1) as [st' [H2 [H3 [H4 _]]]].
    now exists st'.
  - intros before w Hw. unfold step, selectionEffect.
    cbn [selectedWallet setSelectedWallet setTimer].
    destruct (String.eqb_spec w (selectedWallet before)); [contradiction|].
    destruct (String.eqb_spec w "") as [->|Hne].
    + eexists. exists []. split; [reflexivity|].
      cbn. now rewrite app_nil_r.
    + eexists. eexists. split; [reflexivity|].
      rewrite (loadData_nonempty _ _ Hne). cbn.
      repeat split; reflexivity.
Qed.

(** C6 (as the code has it).  A manual refresh on a non-empty selection
    runs a poll cycle at once: in the same transition loading is set, error
    is cleared and a call with both fetches outstanding is suspended for the
    current selection.  The interval is not touched: its next firing stays
    due when it was. *)
Theorem refresh_starts_cycle_keeps_timer (st : St) :
  selectedWallet st <> "" ->
  exists st',
    step st Refresh = Some st'
    /\ loading st' = true /\ error st' = ""
    /\ summary st' = summary st /\ fills st' = fills st
    /\ cycles st'
       = (cycles st ++ [newCycle (nextId st) (selectedWallet st)])%list
    /\ now st' = now st
    /\ timer st' = timer st.
Proof.
  intro H. eexists. split; [reflexivity|].
  rewrite (loadData_nonempty _ _ H). cbn. repeat split; reflexivity.
Qed.

(** C7 (as the code has it).  When the Selection becomes empty, by the
    setter or by a refresh that returns no wallet, the hook starts no fetch,
    cancels the interval and raises no error.  A poll cycle called with the
    empty address starts no fetch either; it resets summary to [null] and
    fills to [[]], and leaves loading and error as they were. *)
Theorem empty_selection_starts_no_fetch (st : St) :
  selectedWallet st <> "" ->
  (exists st',
     step st (SelectWallet "") = Some st'
     /\ selectedWallet st' = ""
     /\ cycles st' = cycles st
     /\ walletRequests st' = walletRequests st
     /\ timer st' = None
     /\ error st' = error st)
  /\ (forall response n, walletsOf response = [] -> walletRequests st = S n ->
      exists st',
        step st (WalletsSettled (Fulfilled (Some response))) = Some st'
        /\ selectedWallet st' = ""
        /\ cycles st' = cycles st
        /\ walletRequests st' = n
        /\ timer st' = None
        /\ error st' = error st)
  /\ (forall st0 : St,
        summary (loadData "" st0) = None
        /\ fills (loadData "" st0) = []
        /\ loading (loadData "" st0) = loading st0
        /\ error (loadData "" st0) = error st0
        /\ cycles (loadData "" st0) = cycles st0
        /\ timer (loadData "" st0) = timer st0).
Proof.
  intro H. split; [|split].
  - eexists. split; [reflexivity|]. unfold selectionEffect.
    cbn [selectedWallet setSelectedWallet setTimer].
    destruct (String.eqb_spec "" (selectedWallet st)) as [E|_];
      [now rewrite <- E in H|].
    cbn. repeat split; reflexivity.
  - intros response n Hempty Hn. unfold step. rewrite Hn.
    eexists. split; [reflexivity|].
    unfold loadWalletsResume, selectionEffect. rewrite Hempty.
    cbn [selectedWallet setSelectedWallet setWallets setWalletRequests setTimer].
    replace (reconcile (selectedWallet st) []) with "".
    2:{ unfold reconcile. cbn. now rewrite andb_false_r. }
    destruct (String.eqb_spec "" (selectedWallet st)) as [E|_];
      [now rewrite <- E in H|].
    cbn. repeat split; reflexivity.
  - intro st0. cbn. repeat split; reflexivity.
Qed.

End EngineFacts.

(* ================================================================== *)
(** ** The properties on concrete sessions *)
(* ================================================================== *)

Lemma reachable_selectedA : reachable selectedA.
Proof.
  apply (run_reachable [WalletsSettled (walletList ["0xA"; "0xB"])] mounted);
    [constructor | vm_compute; reflexivity].
Qed.

Lemma reachable_loadedA : reachable loadedA.
Proof.
  apply (run_reachable
           [SummarySettled 0 (Fulfilled summaryA);
            FillsSettled 0 (Fulfilled (Some fillsA))] selectedA);
    [exact reachable_selectedA | vm_compute; reflexivity].
Qed.

(** The scenario of the specification: wallets [["0xA"; "0xB"]], ["0xA"]
    selected, the summary fetch returns [{equity: 100, positions: []}] and
    the fills fetch returns [{items: []}]. *)
Example scenario_first_load :
  exists st,
    run (@mounted SampleSummary SampleFill)
      [WalletsSettled (walletList ["0xA"; "0xB"]);
       SummarySettled 0 (Fulfilled summaryA);
       FillsSettled 0 (Fulfilled (Some {| items := Some [] |}))] = Some st
    /\ selectedWallet st = "0xA"
    /\ snapshot st
       = (Some {| equity := 100; positions := [] |}, [], false, "").
Proof.
  exists (runFrom mounted
            [WalletsSettled (walletList ["0xA"; "0xB"]);
             SummarySettled 0 (Fulfilled summaryA);
             FillsSettled 0 (Fulfilled (Some {| items := Some [] |}))]).
  vm_compute. repeat split.
Qed.

(** C1 as stated fails.  ["0xA"] is selected and its call is suspended;
    the user selects ["0xB"], whose call completes with B's data; then the
    call for ["0xA"] settles.  Its result replaces B's in the Snapshot while
    ["0xB"] stays selected. *)
Lemma stale_fetch_overwrites_snapshot :
  selectedWallet switchedToB = "0xB"
  /\ snapshot switchedToB = (summaryB, [], false, "")
  /\ (exists c, findCycle 0 (cycles switchedToB) = Some c
                /\ address c = "0xA" /\ finished c = false)
  /\ exists st',
       run switchedToB
         [SummarySettled 0 (Fulfilled summaryA);
          FillsSettled 0 (Fulfilled (Some fillsA))] = Some st'
       /\ selectedWallet st' = "0xB"
       /\ snapshot st' = (summaryA, ["fill-a"], false, "")
       /\ snapshot st' <> snapshot switchedToB.
Proof.
  split; [vm_compute; reflexivity|]. split; [vm_compute; reflexivity|]. split.
  - exists (newCycle 0 "0xA"). vm_compute. repeat split.
  - exists (runFrom switchedToB
              [SummarySettled 0 (Fulfilled summaryA);
               FillsSettled 0 (Fulfilled (Some fillsA))]).
    vm_compute. repeat split. intro H. discriminate H.
Qed.

(** C1 on that session: the late failure of the call for ["0xA"] is
    written too. *)
Lemma superseded_fetch_is_applied_witness :
  findCycle 0 (cycles switchedToB) = Some (newCycle 0 "0xA")
  /\ address (@newCycle SampleSummary SampleFill 0 "0xA")
     <> selectedWallet switchedToB
  /\ exists st',
       step switchedToB (SummarySettled 0 (Rejected (failure "timeout")))
       = Some st'
       /\ snapshot st' = (summaryB, [], false, "timeout")
       /\ selectedWallet st' = "0xB".
Proof.
  assert (H1 : findCycle 0 (cycles switchedToB) = Some (newCycle 0 "0xA"))
    by reflexivity.
  assert (H2 : address (@newCycle SampleSummary SampleFill 0 "0xA")
               <> selectedWallet switchedToB)
    by (intro H; discriminate H).
  split; [exact H1|]. split; [exact H2|].
  exact (proj1 (proj2 (proj2
    (superseded_fetch_is_applied switchedToB 0 (newCycle 0 "0xA")
       H1 eq_refl H2))) (failure "timeout") eq_refl).
Defined.

(** C2 as stated fails.  Two calls for ["0xA"] overlap (the one of the
    selection effect and one of a manual refresh); the first fails, then
    both fetches of the second succeed.  The second cycle ends with the
    first one's message still in [error]. *)
Lemma overlapping_failure_keeps_error :
  exists st',
    run selectedA
      [Refresh;
       SummarySettled 0 (Rejected (failure "HTTP 500"));
       SummarySettled 1 (Fulfilled summaryA);
       FillsSettled 1 (Fulfilled (Some fillsA))] = Some st'
    /\ snapshot st' = (summaryA, ["fill-a"], false, "HTTP 500")
    /\ snapshot st' <> (summaryA, itemsOf fillsA, false, "").
Proof.
  exists (runFrom selectedA
            [Refresh;
             SummarySettled 0 (Rejected (failure "HTTP 500"));
             SummarySettled 1 (Fulfilled summaryA);
             FillsSettled 1 (Fulfilled (Some fillsA))]).
  vm_compute. repeat split. intro H. discriminate H.
Qed.

(** C2 on a refresh of ["0xA"] with nothing in between. *)
Lemma successful_cycle_snapshot_witness :
  reachable loadedA
  /\ exists st1 st2,
       step (loadData "0xA" loadedA)
         (SummarySettled (nextId loadedA) (Fulfilled summaryB)) = Some st1
       /\ snapshot st1 = snapshot (loadData "0xA" loadedA)
       /\ step st1 (FillsSettled (nextId loadedA) (Fulfilled (Some fillsB)))
          = Some st2
       /\ snapshot st2 = (summaryB, [], false, "").
Proof.
  assert (Ha : "0xA" <> "") by (intro H; discriminate H).
  split; [exact reachable_loadedA|].
  exact (proj1 (proj2
    (successful_cycle_snapshot loadedA (loadData "0xA" loadedA) "0xA"
       summaryB fillsB reachable_loadedA Ha eq_refl eq_refl))).
Defined.

(** C3 on a refresh of ["0xA"] whose fills fetch fails after the summary
    fetch succeeded. *)
Lemma failed_cycle_retains_data_witness :
  reachable loadedA
  /\ message (failure "HTTP 500") = Some "HTTP 500"
  /\ exists st1 st2,
       step (loadData "0xA" loadedA)
         (SummarySettled (nextId loadedA) (Fulfilled summaryB)) = Some st1
       /\ snapshot st1 = (summaryA, ["fill-a"], true, "")
       /\ step st1 (FillsSettled (nextId loadedA)
                      (Rejected (failure "HTTP 500"))) = Some st2
       /\ snapshot st2 = (summaryA, ["fill-a"], false, "HTTP 500").
Proof.
  assert (Ha : "0xA" <> "") by (intro H; discriminate H).
  assert (Hm : "HTTP 500" <> "") by (intro H; discriminate H).
  split; [exact reachable_loadedA|]. split; [reflexivity|].
  exact (proj1 (proj2 (proj2
    (failed_cycle_retains_data loadedA (loadData "0xA" loadedA) "0xA"
       "HTTP 500" (failure "HTTP 500") reachable_loadedA Ha eq_refl eq_refl
       eq_refl Hm))) summaryB).
Defined.

(** C4 on the first list to arrive. *)
Lemma loadWallets_reconciles_witness :
  walletRequests (@mounted SampleSummary SampleFill) <> O
  /\ exists st' : Session,
       step mounted (WalletsSettled (walletList ["0xA"; "0xB"])) = Some st'
       /\ wallets st' = ["0xA"; "0xB"]
       /\ selectedWallet st' = "0xA".
Proof.
  assert (H : walletRequests (@mounted SampleSummary SampleFill) <> O)
    by (intro E; discriminate E).
  split; [exact H|].
  destruct (loadWallets_reconciles (@mounted SampleSummary SampleFill)
              {| response_wallets := Some ["0xA"; "0xB"] |} H)
    as [st' [H1 [H2 [_ H3]]]].
  exists st'. split; [exact H1|]. split; [exact H2|].
  exact (proj1 (H3 (or_introl eq_refl))).
Defined.

(** C5 as stated fails: the exposed setter stores whatever it is given. *)
Lemma setter_accepts_unknown_wallet :
  selectionValid selectedA
  /\ exists st',
       step selectedA (SelectWallet "0xZ") = Some st'
       /\ wallets st' = ["0xA"; "0xB"]
       /\ selectedWallet st' = "0xZ"
       /\ ~ selectionValid st'.
Proof.
  split; [right; left; vm_compute; reflexivity|].
  exists (runFrom selectedA [SelectWallet "0xZ"]).
  unfold selectionValid. vm_compute. repeat split.
  intros [H | [H | [H | []]]]; discriminate H.
Qed.

(** C5 on a selection among the listed wallets. *)
Lemma selection_stays_valid_witness :
  selectionValid selectedA
  /\ selectionValid (runFrom selectedA [SelectWallet "0xB"]).
Proof.
  assert (H1 : selectionValid selectedA)
    by (right; left; vm_compute; reflexivity).
  assert (H2 : forall w,
             @SelectWallet SampleSummary SampleFill "0xB" = SelectWallet w ->
             w = "" \/ In w (wallets selectedA)).
  { intros w E. injection E as <-. right. right. left.
    vm_compute; reflexivity. }
  split; [exact H1|].
  exact (proj1 (selection_stays_valid selectedA
                  (runFrom selectedA [SelectWallet "0xB"])
                  (SelectWallet "0xB") H1 H2 eq_refl)).
Defined.

(** C6 as stated fails.  The interval of ["0xA"] is due at 15000; a
    refresh at 10000 leaves it due at 15000, so the next automatic cycle
    comes 5 seconds after the refresh, not 15. *)
Lemma refresh_leaves_timer_due :
  exists st',
    run selectedA [Elapse 10000; Refresh] = Some st'
    /\ now st' = 10000%Z
    /\ timer st' = Some ("0xA", 15000%Z)
    /\ timer st' <> Some ("0xA", (now st' + REFRESH_INTERVAL)%Z)
    /\ exists st'',
         step st' Tick = Some st'' /\ now st'' = 15000%Z
         /\ List.length (cycles st'') = 3%nat.
Proof.
  exists (runFrom selectedA [Elapse 10000; Refresh]).
  split; [vm_compute; reflexivity|]. split; [vm_compute; reflexivity|].
  split; [vm_compute; reflexivity|].
  split; [vm_compute; intro H; discriminate H|].
  exists (runFrom selectedA [Elapse 10000; Refresh; Tick]).
  vm_compute. repeat split.
Qed.

(** C6 on a refresh of ["0xA"]. *)
Lemma refresh_starts_cycle_keeps_timer_witness :
  selectedWallet selectedA <> ""
  /\ exists st',
       step selectedA Refresh = Some st'
       /\ loading st' = true
       /\ List.length (cycles st') = 2%nat
       /\ timer st' = Some ("0xA", 15000%Z).
Proof.
  assert (H : selectedWallet selectedA <> "") by (intro E; discriminate E).
  split; [exact H|].
  destruct (refresh_starts_cycle_keeps_timer selectedA H)
    as [st' [H1 [H2 [_ [_ [_ [H3 [_ H4]]]]]]]].
  exists st'. split; [exact H1|]. split; [exact H2|].
  split; [rewrite H3; reflexivity | rewrite H4; reflexivity].
Defined.

(** C7 as stated fails.  With A's data on display the selection is
    cleared: summary and fills stay.  Cleared while a call is suspended,
    loading stays [true] as well. *)
Lemma emptied_selection_keeps_snapshot :
  (exists st',
     step loadedA (SelectWallet "") = Some st'
     /\ selectedWallet st' = ""
     /\ snapshot st' = (summaryA, ["fill-a"], false, "")
     /\ snapshot st' <> (None, [], false, ""))
  /\ (exists st',
        step selectedA (SelectWallet "") = Some st'
        /\ selectedWallet st' = ""
        /\ loading st' = true).
Proof.
  split.
  - exists (runFrom loadedA [SelectWallet ""]).
    vm_compute. repeat split. intro H. discriminate H.
  - exists (runFrom selectedA [SelectWallet ""]).
    vm_compute. repeat split.
Qed.

(** C7 on clearing the selection of ["0xA"]. *)
Lemma empty_selection_starts_no_fetch_witness :
  selectedWallet loadedA <> ""
  /\ exists st',
       step loadedA (SelectWallet "") = Some st'
       /\ selectedWallet st' = ""
       /\ cycles st' = cycles loadedA
       /\ timer st' = None.
Proof.
  assert (H : selectedWallet loadedA <> "") by (intro E; discriminate E).
  split; [exact H|].
  destruct (proj1 (empty_selection_starts_no_fetch loadedA H))
    as [st' [H1 [H2 [H3 [_ [H4 _]]]]]].
  exists st'. auto.
Defined.

(** C9 on a failure of the first list fetch. *)
Lemma loadWallets_failure_frame_witness :
  walletRequests (@mounted SampleSummary SampleFill) <> O
  /\ exists st' : Session,
       step mounted (WalletsSettled (Rejected (failure "boom"))) = Some st'
       /\ wallets st' = []
       /\ selectedWallet st' = ""
       /\ error st' = "boom".
Proof.
  assert (H : walletRequests (@mounted SampleSummary SampleFill) <> O)
    by (intro E; discriminate E).
  split; [exact H|].
  destruct (loadWallets_failure_frame (@mounted SampleSummary SampleFill)
              (failure "boom") H)
    as [st' [H1 [H2 [H3 [_ [_ [_ [_ [_ [H4 _]]]]]]]]]].
  exists st'. split; [exact H1|]. split; [exact H2|].
  split; [exact H3 | exact H4].
Defined.

(* ================================================================== *)
(** ** Further properties of the formatters *)
(* ================================================================== *)

Section FormatMore.

Variable StringToNumber : string -> number.

Lemma percent_suffix_not_NA (s : string) : s ++ "%" <> "N/A".
Proof.
  destruct s as [|a [|b [|c [|d s]]]]; simpl; intro H;
    try discriminate H; injection H as _ _ _ H; discriminate H.
Qed.

Lemma applicable_Number v :
  notApplicable StringToNumber v = false -> Number StringToNumber v <> NaN.
Proof. apply notApplicable_false. Qed.

Lemma formatCurrency_NA_iff v :
  formatCurrency StringToNumber v = "N/A"
  <-> notApplicable StringToNumber v = true.
Proof.
  unfold formatCurrency. destruct (notApplicable StringToNumber v).
  - split; reflexivity.
  - split; intro H; discriminate H.
Qed.

(** The four numeric formatters answer ["N/A"] on the same inputs,
    whatever options [formatNumber] is given. *)
Theorem formatters_agree_on_NA (v : value) (options : NumberOptions) :
  (formatCurrency StringToNumber v = "N/A"
   <-> formatPrice StringToNumber v = "N/A")
  /\ (formatCurrency StringToNumber v = "N/A"
      <-> formatNumber StringToNumber v options = Returns "N/A")
  /\ (formatCurrency StringToNumber v = "N/A"
      <-> formatPercentage StringToNumber v = Returns "N/A").
Proof.
  rewrite formatCurrency_NA_iff.
  unfold formatPrice, formatNumber, formatPercentage, formatNumber,
    priceFormatter.
  destruct (notApplicable StringToNumber v) eqn:E.
  - repeat split; reflexivity.
  - pose proof (applicable_Number v E) as Hn.
    split; [|split]; (split; [intro H; discriminate H|]).
    + intro H. exfalso. revert H. now apply format_not_NA.
    + destruct (validDigits _ _); intro H; [|discriminate H].
      injection H as H. exfalso. revert H. now apply format_not_NA.
    + cbn. intro H. injection H as H. exfalso.
      exact (percent_suffix_not_NA _ H).
Qed.

(** [formatPercentage] never throws, and on a value [formatNumber] formats
    with its default options, [formatCurrency] is that text behind ["$"]
    and [formatPercentage] is that text before ["%"]. *)
Theorem currency_and_percentage_wrap_formatNumber (v : value) (s : string) :
  formatNumber StringToNumber v noOptions = Returns s ->
  s <> "N/A" ->
  formatCurrency StringToNumber v = "$" ++ s
  /\ formatPercentage StringToNumber v = Returns (s ++ "%")
  /\ (forall v', exists s', formatPercentage StringToNumber v' = Returns s').
Proof.
  intros H Hs. unfold formatNumber, formatCurrency, formatPercentage,
    formatNumber, numberFormatter in *.
  split; [|split].
  - destruct (notApplicable StringToNumber v); cbn in H;
      injection H as <-; [contradiction | reflexivity].
  - destruct (notApplicable StringToNumber v); cbn in H |- *;
      injection H as <-; [contradiction | reflexivity].
  - intro v'. destruct (notApplicable StringToNumber v'); cbn;
      eexists; reflexivity.
Qed.

(** The guard comes before the formatter is built: an input that is not
    applicable gives ["N/A"] under any options.  On every other input,
    lowering only [maximumFractionDigits] below the default minimum 2, or
    raising only [minimumFractionDigits] above the default maximum 2,
    makes [formatNumber] throw a [RangeError]. *)
Theorem formatNumber_inconsistent_digits (v : value) :
  (notApplicable StringToNumber v = true ->
   forall options, formatNumber StringToNumber v options = Returns "N/A")
  /\ (notApplicable StringToNumber v = false ->
      forall n,
        ((n < 2)%nat ->
         formatNumber StringToNumber v
           {| minimumFractionDigits := None; maximumFractionDigits := Some n |}
         = Throws "RangeError")
        /\ ((2 < n)%nat ->
            formatNumber StringToNumber v
              {| minimumFractionDigits := Some n;
                 maximumFractionDigits := None |}
            = Throws "RangeError")).
Proof.
  unfold formatNumber. split; intros H; rewrite H; [reflexivity|].
  intro n. cbn [orDefault minimumFractionDigits maximumFractionDigits].
  unfold validDigits. split; intro Hn.
  - destruct (Nat.leb_spec 2 n); [lia | reflexivity].
  - destruct (Nat.leb_spec n 2); [lia | reflexivity].
Qed.

Lemma lowDigits_length k : forall f, List.length (lowDigits k f) = k.
Proof.
  induction k as [|k IH]; intro f; simpl; [reflexivity|].
  rewrite length_app, IH. simpl. lia.
Qed.

Lemma lowDigits_digits k : forall f, Forall isDigit (lowDigits k f).
Proof.
  induction k as [|k IH]; intro f; simpl; [constructor|].
  apply Forall_app. split; [apply IH|].
  constructor; [apply digitChar_isDigit | constructor].
Qed.

Lemma stripZeros_spec mn (l : list ascii) :
  (List.length (stripZeros mn l) <= List.length l)%nat
  /\ (Nat.min mn (List.length l) <= List.length (stripZeros mn l))%nat
  /\ (forall P : ascii -> Prop, Forall P l -> Forall P (stripZeros mn l))
  /\ ((mn < List.length (stripZeros mn l))%nat ->
      forall rest, stripZeros mn l <> "0"%char :: rest).
Proof.
  induction l as [|d rest IH].
  - simpl. repeat split; try lia. auto.
  - destruct IH as [I1 [I2 [I3 I4]]].
    cbn [stripZeros].
    destruct (Nat.ltb_spec mn (List.length (d :: rest))) as [Hlt|Hge];
      cbn [andb].
    + destruct (Ascii.eqb_spec d "0"%char) as [->|Hd].
      * cbn [List.length] in *. repeat split; try lia.
        -- intros P HP. inversion HP; subst. now apply I3.
        -- exact I4.
      * repeat split; try lia; auto.
        intros _ r H. injection H as H _. contradiction.
    + repeat split; try lia; auto;
        try (intros H; cbn [List.length] in *; lia).
Qed.

Lemma fractionDigits_spec mn mx scaled :
  (Nat.min mn mx <= List.length (fractionDigits mn mx scaled) <= mx)%nat
  /\ Forall isDigit (fractionDigits mn mx scaled)
  /\ ((mn < List.length (fractionDigits mn mx scaled))%nat ->
      forall p, fractionDigits mn mx scaled <> (p ++ ["0"%char])%list).
Proof.
  unfold fractionDigits.
  destruct (stripZeros_spec mn
              (rev (lowDigits mx (scaled mod 10 ^ Z.of_nat mx))))
    as [H1 [H2 [H3 H4]]].
  rewrite length_rev, lowDigits_length in H1, H2.
  rewrite length_rev. split; [lia|]. split.
  - apply Forall_rev, H3, Forall_rev, lowDigits_digits.
  - intros Hgt p Hp.
    apply (f_equal (@rev ascii)) in Hp.
    rewrite rev_involutive, rev_app_distr in Hp.
    exact (H4 Hgt _ Hp).
Qed.

(** [formatPrice] renders a finite number with at least 2 and at most 4
    fraction digits, and keeps a third or fourth digit only when the last
    one kept is not a zero.  The digits [String(x)] prints are what is
    rounded ([1.99995] gives ["2.00"], [123.45678] gives ["123.4568"]), and
    negative zero is rendered ["-0.00"]. *)
Theorem formatPrice_fraction_digits (q : Q) :
  (exists ds : list ascii,
     formatPrice StringToNumber (VNum (Finite q))
     = signOf q ++ groupedInteger 4 (scaledMagnitude 4 q)
         ++ String "."%char (string_of_list_ascii ds)
     /\ (2 <= List.length ds <= 4)%nat
     /\ Forall isDigit ds
     /\ ((2 < List.length ds)%nat ->
         forall p, ds <> (p ++ ["0"%char])%list))
  /\ formatPrice StringToNumber (VNum NegativeZero) = "-0.00"
  /\ formatPrice StringToNumber (VNum (Finite (199995 # 100000))) = "2.00"
  /\ formatPrice StringToNumber (VNum (Finite (12345678 # 100000)))
     = "123.4568"
  /\ formatPrice StringToNumber (VNum (Finite (5 # 10))) = "0.50".
Proof.
  split; [|repeat split].
  destruct (fractionDigits_spec 2 4 (scaledMagnitude 4 q)) as [H1 [H2 H3]].
  exists (fractionDigits 2 4 (scaledMagnitude 4 q)).
  split; [|split; [|split]]; try assumption.
  unfold formatPrice, priceFormatter.
  cbn [notApplicable Number Number_isNaN format]. unfold fractionPart.
  destruct (fractionDigits 2 4 (scaledMagnitude 4 q)) as [|d ds];
    [cbn [List.length] in H1; lia | reflexivity].
Qed.

End FormatMore.

(** On 12.5: ["$12.50"] and ["12.50%"]. *)
Lemma currency_and_percentage_wrap_formatNumber_witness :
  formatNumber sampleStringToNumber (VNum (Finite (125 # 10))) noOptions
  = Returns "12.50"
  /\ formatCurrency sampleStringToNumber (VNum (Finite (125 # 10))) = "$12.50"
  /\ formatPercentage sampleStringToNumber (VNum (Finite (125 # 10)))
     = Returns "12.50%".
Proof.
  assert (H : formatNumber sampleStringToNumber (VNum (Finite (125 # 10)))
                noOptions = Returns "12.50") by reflexivity.
  assert (Hs : "12.50" <> "N/A") by (intro E; discriminate E).
  split; [exact H|].
  destruct (currency_and_percentage_wrap_formatNumber sampleStringToNumber
              (VNum (Finite (125 # 10))) "12.50" H Hs) as [H1 [H2 _]].
  split; [exact H1 | exact H2].
Defined.

(* ================================================================== *)
(** ** Properties of the API client *)
(* ================================================================== *)

Section ClientFacts.

Import Client.

Lemma stripTrailingSlash_app_slash s : stripTrailingSlash (s ++ "/") = s.
Proof.
  induction s as [|c s IH]; [reflexivity|].
  cbn [append stripTrailingSlash]. rewrite IH.
  destruct s; reflexivity.
Qed.

Lemma stripTrailingSlash_other s :
  (forall p, s <> p ++ "/") -> stripTrailingSlash s = s.
Proof.
  induction s as [|c s IH]; intro H; [reflexivity|].
  cbn [stripTrailingSlash]. destruct s as [|c' s'].
  - destruct (Ascii.eqb_spec c "/"%char) as [->|_]; [|reflexivity].
    exfalso. exact (H "" eq_refl).
  - rewrite IH; [reflexivity|].
    intros p Hp. apply (H (String c p)). simpl. now rewrite Hp.
Qed.

Lemma app_slash_nonempty s : (s ++ "/" =? "") = false.
Proof. destruct s; reflexivity. Qed.

(** [normalizeBaseUrl] removes exactly one trailing slash, leaves a string
    without one as it is, and passes [undefined] through. *)
Theorem normalizeBaseUrl_trailing_slash (s : string) :
  normalizeBaseUrl (Some (s ++ "/")) = Some s
  /\ ((forall p, s <> p ++ "/") -> normalizeBaseUrl (Some s) = Some s)
  /\ normalizeBaseUrl None = None.
Proof.
  unfold normalizeBaseUrl. split; [|split; [|reflexivity]].
  - now rewrite app_slash_nonempty, stripTrailingSlash_app_slash.
  - intro H. destruct (s =? ""); [reflexivity|].
    now rewrite stripTrailingSlash_other.
Qed.

(** [API_BASE_URL] is never empty: it is ["/api"] when the variable is
    unset, empty or a lone slash; otherwise it is the configured value,
    with or without one trailing slash. *)
Theorem API_BASE_URL_never_empty (env : option string) :
  API_BASE_URL env <> ""
  /\ (env = None \/ env = Some "" \/ env = Some "/" ->
      API_BASE_URL env = "/api")
  /\ (forall s, s <> "" -> (forall p, s <> p ++ "/") ->
      API_BASE_URL (Some s) = s /\ API_BASE_URL (Some (s ++ "/")) = s).
Proof.
  split; [|split].
  - unfold API_BASE_URL. destruct (normalizeBaseUrl env) as [s|].
    + destruct (String.eqb_spec s ""); [intro H; discriminate H | assumption].
    + intro H; discriminate H.
  - intros [-> | [-> | ->]]; reflexivity.
  - intros s Hne Hno. unfold API_BASE_URL.
    destruct (normalizeBaseUrl_trailing_slash s) as [H1 [H2 _]].
    rewrite H1, (H2 Hno).
    destruct (String.eqb_spec s ""); [contradiction|]. now split.
Qed.

(** Without a [headers] option, [request] sends exactly the header
    [Content-Type: application/json]; [apiClient.get] sends method [GET]
    unless the caller's options name another; every other option is
    passed on unchanged. *)
Theorem request_config_defaults (options : obj field) :
  (options "headers" = None ->
   exists h,
     requestConfig (getOptions options) "headers" = Some (Headers h)
     /\ h "Content-Type" = Some "application/json"
     /\ (forall k, k <> "Content-Type" -> h k = None))
  /\ (options "method" = None ->
      requestConfig (getOptions options) "method" = Some (Text "GET"))
  /\ (forall m, options "method" = Some m ->
      requestConfig (getOptions options) "method" = Some m)
  /\ (forall k, k <> "headers" -> k <> "method" ->
      requestConfig (getOptions options) k = options k).
Proof.
  unfold requestConfig, getOptions, spread, prop, headersOf.
  split; [|split; [|split]].
  - intro H. cbn. rewrite H. eexists. split; [reflexivity|].
    split; [reflexivity|].
    intros k Hk. cbn. unfold emptyObj.
    destruct (String.eqb_spec k "Content-Type"); [contradiction | reflexivity].
  - intro H. cbn. now rewrite H.
  - intros m H. cbn. now rewrite H.
  - intros k H1 H2. destruct (options k); [reflexivity|].
    destruct (String.eqb_spec k "method"); [contradiction|].
    destruct (String.eqb_spec k "headers"); [contradiction | reflexivity].
Qed.

(** A [headers] option replaces the default headers instead of being
    merged with them: the request carries the caller's headers only, so
    [Content-Type] is sent only if the caller repeats it.  The same holds
    for [apiClient.post]. *)
Theorem request_config_caller_headers (options : obj field)
    (h : obj string) (json : string) :
  options "headers" = Some (Headers h) ->
  requestConfig (getOptions options) "headers" = Some (Headers h)
  /\ requestConfig (postOptions json options) "headers" = Some (Headers h)
  /\ (h "Content-Type" = None ->
      forall h', requestConfig (getOptions options) "headers"
                 = Some (Headers h') ->
                 h' "Content-Type" = None).
Proof.
  intro H. unfold requestConfig, getOptions, postOptions, spread.
  rewrite H. split; [reflexivity|]. split; [reflexivity|].
  intros Hc h' E. injection E as <-. exact Hc.
Qed.

(** Addresses are put into the path as they are: different addresses give
    different summary paths, but the summary path of an address that ends
    like a fills request is the fills path of its prefix.  The fills path
    asks for 50 entries when no limit is given. *)
Theorem wallet_paths_verbatim (a : string) :
  (forall b, fetchWalletSummaryPath a = fetchWalletSummaryPath b -> a = b)
  /\ (forall n, (n < 10 ^ 21)%N ->
        fetchWalletSummaryPath (a ++ "/fills?limit=" ++ decimal n)
        = fetchWalletFillsPath a (Some n))
  /\ fetchWalletFillsPath a None = "/wallets/" ++ a ++ "/fills?limit=50".
Proof.
  unfold fetchWalletSummaryPath, fetchWalletFillsPath.
  split; [|split; [intros n _; reflexivity | reflexivity]].
  intros b H. cbn in H. now injection H.
Qed.

End ClientFacts.

(** A caller that sends an [Authorization] header loses [Content-Type]. *)
Lemma request_config_caller_headers_witness :
  Fixtures.bearer "headers"
  = Some (Client.Headers (Client.prop "Authorization" "Bearer t"))
  /\ forall h',
       Client.requestConfig (Client.getOptions Fixtures.bearer) "headers"
       = Some (Client.Headers h') ->
       h' "Content-Type" = None.
Proof.
  assert (H : Fixtures.bearer "headers"
              = Some (Client.Headers (Client.prop "Authorization" "Bearer t")))
    by reflexivity.
  split; [exact H|].
  exact (proj2 (proj2
    (request_config_caller_headers Fixtures.bearer
       (Client.prop "Authorization" "Bearer t") "" H)) eq_refl).
Defined.

(* ================================================================== *)
(** ** Properties of the components *)
(* ================================================================== *)

Section ComponentFacts.

Import Components.

Variable StringToNumber : string -> number.

Lemma formatCurrency_zero :
  formatCurrency StringToNumber (ofLength 0) = "$0.00".
Proof. reflexivity. Qed.

Lemma append_empty (s : string) : s ++ "" = s.
Proof. induction s as [|c s IH]; simpl; [reflexivity | now rewrite IH]. Qed.

Lemma format_length n :
  format 0 0 (Finite (inject_Z (Z.of_nat n))) = groupedInteger 0 (Z.of_nat n).
Proof.
  unfold format, signOf, fractionPart, fractionDigits, scaledMagnitude,
    inject_Z.
  cbn [Qnum Qden lowDigits rev stripZeros Z.of_nat Z.pow].
  destruct (Z.ltb_spec (Z.of_nat n) 0); [lia|].
  rewrite Z.abs_eq by lia.
  replace ((2 * Z.of_nat n * 1 + 1) / (2 * 1))%Z with (Z.of_nat n).
  - cbn [append]. now rewrite append_empty.
  - apply Z.div_unique with (r := 1%Z); lia.
Qed.

(** [MetricsGrid] renders nothing without a summary and otherwise exactly
    its four cards, without throwing.  A missing amount is shown as
    ["$0.00"], not ["N/A"]; a missing equity falls back to the balance; the
    count of positions is shown grouped and without fraction digits, 0 when
    the list is missing. *)
Theorem MetricsGrid_cards {Position : Type} (s : SummaryObject Position) :
  MetricsGrid StringToNumber (@None (SummaryObject Position)) = Nothing
  /\ exists e w t h,
       MetricsGrid StringToNumber (Some s)
       = Cards
           [ {| title := "Account Equity"; cardValue := e;
                hint := "Account value reported by Hyperliquid" |};
             {| title := "Withdrawable"; cardValue := w;
                hint := "Funds available for withdrawal" |};
             {| title := "Open Position Value"; cardValue := t;
                hint := "Sum of absolute position notionals" |};
             {| title := "Positions Held"; cardValue := h;
                hint := "Distinct markets with exposure" |} ]
       /\ (isNullish (equity s) = true -> isNullish (balance s) = true ->
           e = "$0.00")
       /\ (isNullish (equity s) = true -> isNullish (balance s) = false ->
           e = formatCurrency StringToNumber (balance s))
       /\ (isNullish (equity s) = false ->
           e = formatCurrency StringToNumber (equity s))
       /\ (isNullish (withdrawable s) = true -> w = "$0.00")
       /\ (isNullish (totalPositionValue s) = true -> t = "$0.00")
       /\ h = groupedInteger 0
                (Z.of_nat (match positions s with
                           | Some l => List.length l
                           | None => O
                           end)).
Proof.
  split; [reflexivity|].
  unfold MetricsGrid, positionsLength, formatNumber, nullish.
  assert (G : forall n, notApplicable StringToNumber (ofLength n) = false)
    by reflexivity.
  assert (En : forall n,
    (if notApplicable StringToNumber (ofLength n) then Returns "N/A"
     else
       let mn := orDefault (minimumFractionDigits
                   {| minimumFractionDigits := Some 0%nat;
                      maximumFractionDigits := Some 0%nat |}) 2 in
       let mx := orDefault (maximumFractionDigits
                   {| minimumFractionDigits := Some 0%nat;
                      maximumFractionDigits := Some 0%nat |}) 2 in
       if validDigits mn mx
       then Returns (format mn mx (Number StringToNumber (ofLength n)))
       else Throws "RangeError")
    = Returns (groupedInteger 0 (Z.of_nat n))).
  { intro n. rewrite G. cbn [orDefault minimumFractionDigits
      maximumFractionDigits validDigits Nat.leb andb].
    unfold ofLength. cbn [Number]. now rewrite format_length. }
  destruct (positions s) as [l|]; rewrite En;
    (do 4 eexists; split; [reflexivity|]);
    (repeat split;
     [ intros -> ->; reflexivity
     | intros -> ->; reflexivity
     | intros ->; reflexivity
     | intros ->; reflexivity
     | intros ->; reflexivity ]).
Qed.

(** The leverage cell never throws.  It is ["N/A"] for a leverage that is
    missing, zero, [NaN] or the empty string; for any other value it is
    [formatNumber]'s text followed by ["x"], which makes it ["N/Ax"] for a
    non-empty string that is not a number. *)
Theorem leverageCell_cases (v : value) :
  (exists s, leverageCell StringToNumber v = Returns s)
  /\ (truthy v = false -> leverageCell StringToNumber v = Returns "N/A")
  /\ (truthy v = true -> notApplicable StringToNumber v = false ->
      leverageCell StringToNumber v
      = Returns (format 2 2 (Number StringToNumber v) ++ "x"))
  /\ (forall s, s <> "" -> StringToNumber s = NaN ->
      leverageCell StringToNumber (VStr s) = Returns "N/Ax")
  /\ (forall q, (q == 0)%Q ->
      leverageCell StringToNumber (VNum (Finite q)) = Returns "N/A").
Proof.
  unfold leverageCell, formatNumber.
  cbn [orDefault minimumFractionDigits maximumFractionDigits validDigits
       Nat.leb andb].
  split; [|split; [|split; [|split]]].
  - destruct (truthy v); [|eexists; reflexivity].
    destruct (notApplicable StringToNumber v); eexists; reflexivity.
  - intros ->. reflexivity.
  - intros -> ->. reflexivity.
  - intros s Hs Hn. cbn [truthy notApplicable Number].
    destruct (String.eqb_spec s ""); [contradiction|]. cbn.
    now rewrite Hn.
  - intros q Hq. cbn [truthy].
    replace (Qnum q =? 0)%Z with true; [reflexivity|].
    symmetry. apply Z.eqb_eq. unfold Qeq in Hq. simpl in Hq. lia.
Qed.

End ComponentFacts.

(* ================================================================== *)
(** ** Further properties of the hook *)
(* ================================================================== *)

Section EngineMore.

Import Client.
Import Components.

Context {Summary Fill : Type}.

Local Abbreviation St := (State Summary Fill).
Local Abbreviation Ev := (Event Summary Fill).
Local Abbreviation Cy := (Cycle Summary Fill).

(* ------------------------------------------------------------------ *)
(** *** What a settlement leaves alone *)
(* ------------------------------------------------------------------ *)

Lemma findCycle_replace_other (c' : Cy) (cs : list Cy) id' :
  cycleId c' <> id' ->
  findCycle id' (replaceCycle c' cs) = findCycle id' cs.
Proof.
  intro H. induction cs as [|x rest IH]; simpl; [reflexivity|].
  destruct (Nat.eqb_spec (cycleId x) (cycleId c')) as [E|E]; simpl.
  - destruct (Nat.eqb_spec (cycleId c') id'); [contradiction|].
    destruct (Nat.eqb_spec (cycleId x) id'); [congruence | reflexivity].
  - destruct (Nat.eqb_spec (cycleId x) id'); [reflexivity | exact IH].
Qed.

Lemma settleCycle_cycles (c c' : Cy) r (st : St) :
  cycles (settleCycle c c' r st) = replaceCycle c' (cycles st)
  \/ (finished c = false
      /\ cycles (settleCycle c c' r st) = replaceCycle (finish c') (cycles st)).
Proof.
  unfold settleCycle. destruct (finished c); [now left|].
  destruct r as [e|]; [right; now split|].
  destruct (summarySlot c') as [|s|]; try now left.
  destruct (fillsSlot c') as [|f|]; try now left.
  right. split; [reflexivity|]. unfold loadDataResume. destruct f; reflexivity.
Qed.

Lemma settleCycle_frame (c c' : Cy) r (st : St) :
  selectedWallet (settleCycle c c' r st) = selectedWallet st
  /\ wallets (settleCycle c c' r st) = wallets st
  /\ timer (settleCycle c c' r st) = timer st
  /\ now (settleCycle c c' r st) = now st
  /\ (finished c = true ->
      snapshot (settleCycle c c' r st) = snapshot st).
Proof.
  unfold settleCycle. destruct (finished c); [repeat split|].
  destruct r as [e|]; [repeat split; discriminate|].
  destruct (summarySlot c') as [|s|]; try (repeat split; discriminate).
  destruct (fillsSlot c') as [|f|]; try (repeat split; discriminate).
  unfold loadDataResume. destruct f; repeat split; discriminate.
Qed.

(** Data written by one settlement: nothing, or the end of the call. *)
Lemma settleCycle_outcome (c c' : Cy) r (st : St) id :
  findCycle id (cycles st) = Some c -> cycleId c' = cycleId c ->
  finished c' = finished c ->
  (snapshot (settleCycle c c' r st) = snapshot st
   /\ findCycle id (cycles (settleCycle c c' r st)) = Some c')
  \/ (finished c = false
      /\ findCycle id (cycles (settleCycle c c' r st)) = Some (finish c')).
Proof.
  intros Hc Hid Hfin. unfold settleCycle.
  destruct (finished c) eqn:Hf.
  - left. split; [reflexivity|]. cbn. now apply (replaced_lookup id c).
  - destruct r as [e|].
    + right. split; [reflexivity|]. cbn. now apply (replaced_lookup id c).
    + destruct (summarySlot c') as [|s|];
        try (left; split; [reflexivity|]; cbn;
             now apply (replaced_lookup id c)).
      destruct (fillsSlot c') as [|f|];
        try (left; split; [reflexivity|]; cbn;
             now apply (replaced_lookup id c)).
      right. split; [reflexivity|].
      unfold loadDataResume. destruct f; cbn;
        now apply (replaced_lookup id c).
Qed.

Lemma settleCycle_others (c c' : Cy) r (st : St) id id' :
  findCycle id (cycles st) = Some c -> cycleId c' = cycleId c ->
  id' <> id ->
  findCycle id' (cycles (settleCycle c c' r st)) = findCycle id' (cycles st).
Proof.
  intros Hc Hid Hne. pose proof (findCycle_id _ _ _ Hc) as E.
  destruct (settleCycle_cycles c c' r st) as [-> | [_ ->]];
    apply findCycle_replace_other; cbn; congruence.
Qed.

Lemma settle_step_local (st st' : St) id (c c' : Cy) r :
  findCycle id (cycles st) = Some c -> cycleId c' = cycleId c ->
  finished c' = finished c ->
  st' = settleCycle c c' r st ->
  (forall id', id' <> id ->
     findCycle id' (cycles st') = findCycle id' (cycles st))
  /\ selectedWallet st' = selectedWallet st
  /\ wallets st' = wallets st
  /\ timer st' = timer st
  /\ (snapshot st' = snapshot st
      \/ exists c1,
           finished c = false
           /\ findCycle id (cycles st') = Some c1 /\ finished c1 = true)
  /\ (finished c = true ->
      snapshot st' = snapshot st
      /\ exists c1, findCycle id (cycles st') = Some c1 /\ finished c1 = true)
  /\ exists c1,
       findCycle id (cycles st') = Some c1
       /\ summarySlot c1 = summarySlot c' /\ fillsSlot c1 = fillsSlot c'.
Proof.
  intros Hc Hid Hfin ->.
  destruct (settleCycle_frame c c' r st) as [F1 [F2 [F3 [_ F5]]]].
  split; [intros id' Hne; now apply (settleCycle_others c c' r st id)|].
  repeat (split; [assumption|]).
  destruct (settleCycle_outcome c c' r st id Hc Hid Hfin)
    as [[S1 S2] | [S1 S2]].
  - split; [now left|]. split.
    + intro Ht. split; [exact S1|]. exists c'. split; [exact S2|]. congruence.
    + exists c'. auto.
  - split; [right; exists (finish c'); auto|]. split.
    + intro Ht. congruence.
    + exists (finish c'). auto.
Qed.

(** A settlement of a fetch of one call leaves every other suspended call,
    the wallet list, the selection and the interval as they are.  It
    changes the Snapshot only if it ends its call, which happens at most
    once per call: after the call has ended, a settlement changes nothing
    of the Snapshot.  The same fetch cannot settle twice. *)
Theorem settlement_is_local (st st' : St) (id : nat) (ev : Ev) :
  (exists r, ev = SummarySettled id r) \/ (exists r, ev = FillsSettled id r) ->
  step st ev = Some st' ->
  (forall id', id' <> id ->
     findCycle id' (cycles st') = findCycle id' (cycles st))
  /\ selectedWallet st' = selectedWallet st
  /\ wallets st' = wallets st
  /\ timer st' = timer st
  /\ (snapshot st' = snapshot st
      \/ exists c c1,
           findCycle id (cycles st) = Some c /\ finished c = false
           /\ findCycle id (cycles st') = Some c1 /\ finished c1 = true)
  /\ (forall c, findCycle id (cycles st) = Some c -> finished c = true ->
      snapshot st' = snapshot st
      /\ exists c1, findCycle id (cycles st') = Some c1 /\ finished c1 = true)
  /\ step st' ev = None.
Proof.
  intros [[r ->] | [r ->]] Hstep; cbn [step] in Hstep |- *;
    destruct (findCycle id (cycles st)) as [c|] eqn:Hc; try discriminate;
    [ destruct (isOutstanding (summarySlot c)) eqn:Ho
    | destruct (isOutstanding (fillsSlot c)) eqn:Ho ];
    try discriminate; injection Hstep as Hst'; symmetry in Hst'.
  - destruct (settle_step_local st st' id c (withSummary (toSlot r) c)
                (rejection r) Hc eq_refl eq_refl Hst')
      as [L1 [L2 [L3 [L4 [L5 [L6 [c1 [L7 [L8 _]]]]]]]]].
    repeat (split; [assumption|]).
    split; [destruct L5 as [L5 | [c2 [G1 [G2 G3]]]];
            [now left | right; exists c, c2; auto]|].
    split; [intros c0 E; injection E as <-; exact L6|].
    rewrite L7, L8. cbn. destruct r; reflexivity.
  - destruct (settle_step_local st st' id c (withFills (toSlot r) c)
                (rejection r) Hc eq_refl eq_refl Hst')
      as [L1 [L2 [L3 [L4 [L5 [L6 [c1 [L7 [_ L8]]]]]]]]].
    repeat (split; [assumption|]).
    split; [destruct L5 as [L5 | [c2 [G1 [G2 G3]]]];
            [now left | right; exists c, c2; auto]|].
    split; [intros c0 E; injection E as <-; exact L6|].
    rewrite L7, L8. cbn. destruct r; reflexivity.
Qed.

(* ------------------------------------------------------------------ *)
(** *** The interval follows the selection *)
(* ------------------------------------------------------------------ *)

Lemma selectionEffect_timer previous (st : St) :
  match timer st with
  | None => previous = ""
  | Some (a, due) =>
      a = previous /\ a <> ""
      /\ (now st <= due <= now st + REFRESH_INTERVAL)%Z
  end ->
  timerTracksSelection (selectionEffect previous st).
Proof.
  intro H. unfold selectionEffect.
  destruct (String.eqb_spec (selectedWallet st) previous) as [E|E].
  - unfold timerTracksSelection. now rewrite E.
  - cbn [selectedWallet setTimer].
    destruct (String.eqb_spec (selectedWallet st) "") as [E0|E0].
    + unfold timerTracksSelection. cbn. exact E0.
    + rewrite (loadData_nonempty _ _ E0). unfold timerTracksSelection. cbn.
      unfold REFRESH_INTERVAL. repeat split; try assumption; lia.
Qed.

Lemma timerTracksSelection_frame (st st' : St) :
  timer st' = timer st -> selectedWallet st' = selectedWallet st ->
  now st' = now st ->
  timerTracksSelection st -> timerTracksSelection st'.
Proof. unfold timerTracksSelection. intros -> -> ->. auto. Qed.

Lemma step_timerTracksSelection (st st' : St) (ev : Ev) :
  timerTracksSelection st -> step st ev = Some st' ->
  timerTracksSelection st'.
Proof.
  intros H Hstep.
  destruct ev as [|r|w| | |d|id r|id r]; simpl in Hstep.
  - injection Hstep as <-. exact H.
  - destruct (walletRequests st) as [|n]; [discriminate|].
    injection Hstep as <-.
    destruct r as [[response|]|e]; simpl; try exact H.
    apply selectionEffect_timer. exact H.
  - injection Hstep as <-. apply selectionEffect_timer. exact H.
  - injection Hstep as <-.
    destruct (loadData_selection (selectedWallet st) st)
      as [E1 [_ [E2 [E3 _]]]].
    now apply (timerTracksSelection_frame st).
  - unfold timerTracksSelection in H.
    destruct (timer st) as [[a due]|]; [|discriminate].
    destruct (now st <=? due)%Z; [|discriminate].
    injection Hstep as <-. destruct H as [Ha [Hne Hb]].
    rewrite (loadData_nonempty _ _ Hne). unfold timerTracksSelection. cbn.
    unfold REFRESH_INTERVAL in *. repeat split; try assumption; lia.
  - destruct (0 <=? d)%Z eqn:Hd; [|discriminate].
    unfold timerTracksSelection in *.
    destruct (timer st) as [[a due]|] eqn:Ht.
    + destruct (now st + d <=? due)%Z eqn:Hle; [|discriminate].
      injection Hstep as <-. cbn. rewrite Ht.
      apply Z.leb_le in Hd, Hle. destruct H as [Ha [Hne Hb]].
      repeat split; try assumption; lia.
    + injection Hstep as <-. cbn. now rewrite Ht.
  - destruct (findCycle id (cycles st)) as [c|]; [|discriminate].
    destruct (isOutstanding (summarySlot c)); [|discriminate].
    injection Hstep as <-.
    match goal with |- timerTracksSelection (settleCycle ?c ?c' ?r ?s) =>
      destruct (settleCycle_frame c c' r s) as [E1 [_ [E2 [E3 _]]]] end.
    now apply (timerTracksSelection_frame st).
  - destruct (findCycle id (cycles st)) as [c|]; [|discriminate].
    destruct (isOutstanding (fillsSlot c)); [|discriminate].
    injection Hstep as <-.
    match goal with |- timerTracksSelection (settleCycle ?c ?c' ?r ?s) =>
      destruct (settleCycle_frame c c' r s) as [E1 [_ [E2 [E3 _]]]] end.
    now apply (timerTracksSelection_frame st).
Qed.

Lemma reachable_timer (st : St) : reachable st -> timerTracksSelection st.
Proof.
  induction 1 as [|st ev st' _ IH Hstep].
  - reflexivity.
  - exact (step_timerTracksSelection st st' ev IH Hstep).
Qed.

(** In every state the hook can be in, an interval is installed exactly
    while a wallet is selected; it polls that wallet and is due within the
    next 15 seconds.  Every transition keeps it so. *)
Theorem timer_tracks_selection (st : St) :
  reachable st ->
  timerTracksSelection st
  /\ (timer st = None <-> selectedWallet st = "")
  /\ (forall ev st', step st ev = Some st' -> timerTracksSelection st').
Proof.
  intro Hr. pose proof (reachable_timer st Hr) as H.
  split; [exact H|]. split.
  - unfold timerTracksSelection in H.
    destruct (timer st) as [[a due]|].
    + destruct H as [Ha [Hne _]]. split; [discriminate|].
      intro E. congruence.
    + split; auto.
  - intros ev st' Hstep. exact (step_timerTracksSelection st st' ev H Hstep).
Qed.

(** An automatic poll cannot happen while nothing is selected.  While a
    wallet is selected it fires when due, polls the selected wallet (never
    an earlier one), clears [error], sets [loading], keeps summary and
    fills on display, and is next due 15 seconds later. *)
Theorem tick_polls_current_selection (st : St) :
  reachable st ->
  (selectedWallet st = "" -> step st Tick = None)
  /\ (selectedWallet st <> "" ->
      exists due st',
        timer st = Some (selectedWallet st, due)
        /\ (now st <= due <= now st + REFRESH_INTERVAL)%Z
        /\ step st Tick = Some st'
        /\ now st' = due
        /\ timer st' = Some (selectedWallet st, (due + REFRESH_INTERVAL)%Z)
        /\ snapshot st' = (summary st, fills st, true, "")
        /\ cycles st'
           = (cycles st ++ [newCycle (nextId st) (selectedWallet st)])%list).
Proof.
  intro Hr. pose proof (reachable_timer st Hr) as H.
  unfold timerTracksSelection in H. cbn [step].
  destruct (timer st) as [[a due]|].
  - destruct H as [<- [Hne Hb]]. split; [intro E; contradiction|].
    intros _. exists due.
    destruct (Z.leb_spec (now st) due); [|lia].
    eexists. split; [reflexivity|]. split; [exact Hb|].
    split; [reflexivity|]. rewrite (loadData_nonempty _ _ Hne). cbn.
    repeat split; reflexivity.
  - split; [reflexivity|]. intro Hne. contradiction.
Qed.

(* ------------------------------------------------------------------ *)
(** *** Selecting and refreshing *)
(* ------------------------------------------------------------------ *)

Lemma setSelectedWallet_same (st : St) :
  setSelectedWallet (selectedWallet st) st = st.
Proof. destruct st; reflexivity. Qed.

(** Selecting the wallet that is already selected changes nothing; and a
    wallet-list refresh whose list still contains the selected wallet
    replaces the list and nothing else: no call is started and the
    interval is not restarted. *)
Theorem unchanged_selection_restarts_nothing (st : St)
    (response : WalletsResponse) (n : nat) :
  walletRequests st = S n ->
  selectedWallet st <> "" ->
  In (selectedWallet st) (walletsOf response) ->
  step st (SelectWallet (selectedWallet st)) = Some st
  /\ exists st',
       step st (WalletsSettled (Fulfilled (Some response))) = Some st'
       /\ wallets st' = walletsOf response
       /\ selectedWallet st' = selectedWallet st
       /\ snapshot st' = snapshot st
       /\ cycles st' = cycles st
       /\ timer st' = timer st
       /\ walletRequests st' = n.
Proof.
  intros Hn Hne Hin. split.
  - cbn [step]. rewrite setSelectedWallet_same. unfold selectionEffect.
    now rewrite String.eqb_refl.
  - cbn [step]. rewrite Hn. eexists. split; [reflexivity|].
    unfold loadWalletsResume. cbn [selectedWallet setWalletRequests].
    rewrite (reconcile_member _ _ Hne Hin).
    unfold selectionEffect. cbn [selectedWallet setSelectedWallet setWallets].
    rewrite String.eqb_refl. cbn. repeat split; reflexivity.
Qed.

(** Selecting another wallet starts one call for it and restarts the
    interval for it; the previous wallet's summary and fills stay in the
    Snapshot, with [loading] set and [error] cleared, until a call
    settles. *)
Theorem switching_keeps_previous_data (st : St) (w : string) :
  w <> "" -> w <> selectedWallet st ->
  exists st',
    step st (SelectWallet w) = Some st'
    /\ selectedWallet st' = w
    /\ wallets st' = wallets st
    /\ snapshot st' = (summary st, fills st, true, "")
    /\ cycles st' = (cycles st ++ [newCycle (nextId st) w])%list
    /\ timer st' = Some (w, (now st + REFRESH_INTERVAL)%Z).
Proof.
  intros Hne Hw. cbn [step]. eexists. split; [reflexivity|].
  unfold selectionEffect. cbn [selectedWallet setSelectedWallet setTimer].
  destruct (String.eqb_spec w (selectedWallet st)); [contradiction|].
  destruct (String.eqb_spec w ""); [contradiction|].
  rewrite (loadData_nonempty _ _ Hne). cbn. repeat split; reflexivity.
Qed.

(* ------------------------------------------------------------------ *)
(** *** Responses without a body and responses that are not ok *)
(* ------------------------------------------------------------------ *)

Lemma nullPropertyError_text prop fallback :
  orText (message (nullPropertyError prop)) fallback
  = "Cannot read properties of null (reading '" ++ prop ++ "')"
  /\ orText (message (nullPropertyError prop)) fallback <> "".
Proof. split; [reflexivity | intro H; discriminate H]. Qed.

(** A 204 answer to the fills request makes [request] resolve with [null];
    the call then ends with the new summary written, the previous fills
    kept, [loading = false] and a non-empty [error], in whichever order the
    two fetches arrive. *)
Theorem fills_without_body (st : St) (id : nat) (c : Cy)
    (s : option Summary) (statusText : string) (text : settled string)
    (json : settled (option (FillsResponse Fill))) :
  findCycle id (cycles st) = Some c ->
  finished c = false ->
  request (Response true 204 statusText text json) = Fulfilled None
  /\ (summarySlot c = Resolved s -> fillsSlot c = Outstanding ->
      exists st',
        step st
          (FillsSettled id (request (Response true 204 statusText text json)))
        = Some st'
        /\ summary st' = s /\ fills st' = fills st /\ loading st' = false
        /\ error st' <> "")
  /\ (summarySlot c = Outstanding -> fillsSlot c = Resolved None ->
      exists st',
        step st (SummarySettled id (Fulfilled s)) = Some st'
        /\ summary st' = s /\ fills st' = fills st /\ loading st' = false
        /\ error st' <> "").
Proof.
  intros Hc Hf. split; [reflexivity|]. split; intros H1 H2.
  - cbn [request negb Nat.eqb]. cbn [step]. rewrite Hc, H2. cbn [isOutstanding].
    eexists. split; [reflexivity|].
    unfold settleCycle. rewrite Hf. cbn. rewrite H1. cbn.
    repeat split. intro E; discriminate E.
  - cbn [step]. rewrite Hc, H1. cbn [isOutstanding].
    eexists. split; [reflexivity|].
    unfold settleCycle. rewrite Hf. cbn. rewrite H2. cbn.
    repeat split. intro E; discriminate E.
Qed.

(** A 204 answer to the wallet-list request is handled like a failure:
    the wallet list, the selection and the data stay, no call is started,
    and [error] becomes non-empty. *)
Theorem wallets_without_body (st : St) (n : nat) (statusText : string)
    (text : settled string) (json : settled (option WalletsResponse)) :
  walletRequests st = S n ->
  exists st',
    step st (WalletsSettled (request (Response true 204 statusText text json)))
    = Some st'
    /\ wallets st' = wallets st
    /\ selectedWallet st' = selectedWallet st
    /\ summary st' = summary st /\ fills st' = fills st
    /\ loading st' = loading st
    /\ cycles st' = cycles st /\ timer st' = timer st
    /\ error st' <> "".
Proof.
  intro Hn. cbn [request negb Nat.eqb step]. rewrite Hn.
  eexists. split; [reflexivity|]. cbn.
  repeat split. intro E; discriminate E.
Qed.

Lemma errorTextOf_nonempty status statusText text :
  errorTextOf status statusText text <> "".
Proof.
  unfold errorTextOf.
  destruct (String.eqb_spec
              match text with Fulfilled s => s | Rejected _ => statusText end
              "").
  - intro H; discriminate H.
  - assumption.
Qed.

Lemma request_not_ok {Body : Type} status statusText text
    (json : settled (option Body)) :
  request (Response false status statusText text json)
  = Rejected {| message := Some (errorTextOf status statusText text) |}.
Proof. reflexivity. Qed.

(** When the server answers a request with a status that is not ok, the
    text put in [error] is the response body, or the status text when the
    body cannot be read, or ["Request failed with status N"] when that is
    empty.  It is never empty, so the hook's own fallback texts are not
    used for such answers; the data on display stays. *)
Theorem http_error_text_is_shown (st : St) (id : nat) (c : Cy)
    (status : nat) (statusText : string) (text : settled string) :
  findCycle id (cycles st) = Some c ->
  finished c = false ->
  errorTextOf status statusText text <> ""
  /\ (forall json, summarySlot c = Outstanding ->
      exists st',
        step st (SummarySettled id
                   (request (Response false status statusText text json)))
        = Some st'
        /\ snapshot st'
           = (summary st, fills st, false,
              errorTextOf status statusText text))
  /\ (forall json, fillsSlot c = Outstanding ->
      exists st',
        step st (FillsSettled id
                   (request (Response false status statusText text json)))
        = Some st'
        /\ snapshot st'
           = (summary st, fills st, false,
              errorTextOf status statusText text))
  /\ (forall json (st0 : St) n, walletRequests st0 = S n ->
      exists st',
        step st0 (WalletsSettled
                    (request (Response false status statusText text json)))
        = Some st'
        /\ error st' = errorTextOf status statusText text
        /\ wallets st' = wallets st0
        /\ selectedWallet st' = selectedWallet st0).
Proof.
  intros Hc Hf.
  pose proof (errorTextOf_nonempty status statusText text) as Hne.
  split; [exact Hne|]. split; [|split].
  - intros json Ho. rewrite request_not_ok.
    destruct (summary_rejected st id c
                {| message := Some (errorTextOf status statusText text) |}
                Hc Hf Ho) as [st' [H1 [H2 _]]].
    exists st'. split; [exact H1|]. rewrite H2. cbn [message].
    now rewrite (orText_message _ _ Hne).
  - intros json Ho. rewrite request_not_ok.
    destruct (fills_rejected st id c
                {| message := Some (errorTextOf status statusText text) |}
                Hc Hf Ho) as [st' [H1 [H2 _]]].
    exists st'. split; [exact H1|]. rewrite H2. cbn [message].
    now rewrite (orText_message _ _ Hne).
  - intros json st0 n Hn. rewrite request_not_ok. cbn [step]. rewrite Hn.
    eexists. split; [reflexivity|].
    unfold loadWalletsResume. cbn [message].
    rewrite (orText_message _ _ Hne). repeat split; reflexivity.
Qed.

End EngineMore.

(* ================================================================== *)
(** ** What changes the data on display *)
(* ================================================================== *)

Section DataFacts.

Import Components.

Context {Summary Fill Position : Type}.

Variable summaryPositions : Summary -> option (list Position).

Local Abbreviation St := (State Summary Fill).
Local Abbreviation Ev := (Event Summary Fill).

Lemma loadData_data a (st : St) :
  a <> "" ->
  summary (loadData a st) = summary st /\ fills (loadData a st) = fills st.
Proof. intro H. rewrite (loadData_nonempty _ _ H). now split. Qed.

Lemma selectionEffect_data previous (st : St) :
  summary (selectionEffect previous st) = summary st
  /\ fills (selectionEffect previous st) = fills st.
Proof.
  unfold selectionEffect.
  destruct (selectedWallet st =? previous); [now split|].
  cbn [selectedWallet setTimer].
  destruct (String.eqb_spec (selectedWallet st) "") as [|E]; [now split|].
  rewrite (loadData_nonempty _ _ E). now split.
Qed.

Lemma settleCycle_rejected_data (c c' : Cycle Summary Fill) e (st : St) :
  summary (settleCycle c c' (Some e) st) = summary st
  /\ fills (settleCycle c c' (Some e) st) = fills st.
Proof. unfold settleCycle. destruct (finished c); now split. Qed.

Lemma step_data (st st' : St) (ev : Ev) :
  timerTracksSelection st -> step st ev = Some st' ->
  (summary st' = summary st /\ fills st' = fills st)
  \/ (exists id s, ev = SummarySettled id (Fulfilled s))
  \/ (exists id f, ev = FillsSettled id (Fulfilled f))
  \/ (ev = Refresh /\ selectedWallet st = "").
Proof.
  intros Ht Hstep.
  destruct ev as [|r|w| | |d|id r|id r]; simpl in Hstep.
  - injection Hstep as <-. now left.
  - destruct (walletRequests st) as [|n]; [discriminate|].
    injection Hstep as <-. left.
    destruct r as [[response|]|e]; simpl; try now split.
    match goal with |- context [selectionEffect ?p ?s] =>
      destruct (selectionEffect_data p s) as [E1 E2]; rewrite E1, E2 end.
    now split.
  - injection Hstep as <-. left.
    match goal with |- context [selectionEffect ?p ?s] =>
      destruct (selectionEffect_data p s) as [E1 E2]; rewrite E1, E2 end.
    now split.
  - injection Hstep as <-.
    destruct (String.eqb_spec (selectedWallet st) "") as [E|E].
    + right. right. right. now split.
    + left. now apply loadData_data.
  - unfold timerTracksSelection in Ht.
    destruct (timer st) as [[a due]|]; [|discriminate].
    destruct (now st <=? due)%Z; [|discriminate].
    injection Hstep as <-. left. destruct Ht as [_ [Hne _]].
    rewrite (loadData_nonempty _ _ Hne). now split.
  - destruct (_ && _); [|discriminate]. injection Hstep as <-. now left.
  - destruct r as [s|e]; [right; left; eauto|].
    destruct (findCycle id (cycles st)) as [c|]; [|discriminate].
    destruct (isOutstanding (summarySlot c)); [|discriminate].
    injection Hstep as <-. left. apply settleCycle_rejected_data.
  - destruct r as [f|e]; [right; right; left; eauto|].
    destruct (findCycle id (cycles st)) as [c|]; [|discriminate].
    destruct (isOutstanding (fillsSlot c)); [|discriminate].
    injection Hstep as <-. left. apply settleCycle_rejected_data.
Qed.

(** Summary, fills and the derived positions change only when a fetch is
    fulfilled or when a manual refresh is made while nothing is selected.
    A wallet-list refresh, a selection change, a timer tick, the passing of
    time and every failure leave them as they are. *)
Theorem data_changes_only_on_fulfilment (st st' : St) (ev : Ev) :
  reachable st ->
  step st ev = Some st' ->
  (summary st' = summary st /\ fills st' = fills st
   /\ hookPositions Position summaryPositions st'
      = hookPositions Position summaryPositions st)
  \/ (exists id s, ev = SummarySettled id (Fulfilled s))
  \/ (exists id f, ev = FillsSettled id (Fulfilled f))
  \/ (ev = Refresh /\ selectedWallet st = "").
Proof.
  intros Hr Hstep.
  destruct (step_data st st' ev (reachable_timer st Hr) Hstep)
    as [[H1 H2] | H]; [left | right; exact H].
  repeat split; try assumption. unfold hookPositions. now rewrite H1.
Qed.

(* ------------------------------------------------------------------ *)
(** *** The hook under the Dashboard *)
(* ------------------------------------------------------------------ *)

Lemma dashboard_reachable (st : St) : dashboardReachable st -> reachable st.
Proof.
  induction 1 as [|st ev st' _ IH _ Hstep]; [constructor|].
  exact (reachable_step st ev st' IH Hstep).
Qed.

Lemma optionValues_member w (ws : list string) :
  existsb (String.eqb w) (optionValues ws) = true -> w = "" \/ In w ws.
Proof.
  intro H. apply existsb_exists in H as [x [Hin Hx]].
  apply String.eqb_eq in Hx. subst x. unfold optionValues in Hin.
  destruct ws as [|w0 rest]; simpl in Hin.
  - destruct Hin as [<- | []]. now left.
  - now right.
Qed.

Lemma step_selectionValid (st st' : St) (ev : Ev) :
  selectionValid st ->
  (forall w, ev = SelectWallet w -> w = "" \/ In w (wallets st)) ->
  step st ev = Some st' ->
  selectionValid st'.
Proof.
  intros Hv Hset Hstep.
  destruct ev as [|r|w| | |d|id r|id r]; simpl in Hstep.
  - injection Hstep as <-. exact Hv.
  - destruct (walletRequests st) as [|n]; [discriminate|].
    injection Hstep as <-.
    destruct r as [[response|]|e]; simpl; try exact Hv.
    unfold selectionValid.
    match goal with |- context [selectionEffect ?p ?s] =>
      destruct (selectionEffect_selection p s) as [E1 E2]; rewrite E1, E2 end.
    apply reconcile_valid.
  - injection Hstep as <-. unfold selectionValid.
    match goal with |- context [selectionEffect ?p ?s] =>
      destruct (selectionEffect_selection p s) as [E1 E2]; rewrite E1, E2 end.
    simpl. now apply Hset.
  - injection Hstep as <-.
    destruct (loadData_selection (selectedWallet st) st) as [E1 [E2 _]].
    now apply (selectionValid_frame st).
  - destruct (timer st) as [[a due]|]; [|discriminate].
    destruct (now st <=? due)%Z; [|discriminate].
    injection Hstep as <-.
    match goal with |- selectionValid (loadData ?a ?s) =>
      destruct (loadData_selection a s) as [E1 [E2 _]] end.
    now apply (selectionValid_frame st).
  - destruct (_ && _); [|discriminate]. injection Hstep as <-. exact Hv.
  - destruct (findCycle id (cycles st)) as [c|]; [|discriminate].
    destruct (isOutstanding (summarySlot c)); [|discriminate].
    injection Hstep as <-.
    match goal with |- selectionValid (settleCycle ?c ?c' ?r ?s) =>
      destruct (settleCycle_selection c c' r s) as [E1 E2] end.
    now apply (selectionValid_frame st).
  - destruct (findCycle id (cycles st)) as [c|]; [|discriminate].
    destruct (isOutstanding (fillsSlot c)); [|discriminate].
    injection Hstep as <-.
    match goal with |- selectionValid (settleCycle ?c ?c' ?r ?s) =>
      destruct (settleCycle_selection c c' r s) as [E1 E2] end.
    now apply (selectionValid_frame st).
Qed.

Lemma dashboard_selectionValid (st : St) :
  dashboardReachable st -> selectionValid st.
Proof.
  induction 1 as [|st ev st' _ IH Hallow Hstep]; [now left|].
  apply (step_selectionValid st st' ev IH); [|exact Hstep].
  intros w ->. cbn in Hallow. now apply optionValues_member.
Qed.

(** Driven through the Dashboard (the selector's options, the Refresh
    button that is disabled while nothing is selected, and no wallet-list
    reload), the Selection is always empty or a member of the wallet list;
    every update of the selection comes from the offered options; and
    summary and fills are written only by the fulfilment of a fetch: the
    branch of [loadData] that resets them is never taken. *)
Theorem dashboard_keeps_selection_valid (st : St) :
  dashboardReachable st ->
  selectionValid st
  /\ (forall w, dashboardAllows st (SelectWallet w) = true ->
      w = "" \/ In w (wallets st))
  /\ dashboardAllows st Refresh = negb (selectedWallet st =? "")
  /\ (forall ev st',
        dashboardAllows st ev = true -> step st ev = Some st' ->
        selectionValid st'
        /\ ((summary st' = summary st /\ fills st' = fills st)
            \/ (exists id s, ev = SummarySettled id (Fulfilled s))
            \/ (exists id f, ev = FillsSettled id (Fulfilled f)))).
Proof.
  intro Hd. pose proof (dashboard_selectionValid st Hd) as Hv.
  split; [exact Hv|]. split; [|split; [reflexivity|]].
  - intros w H. cbn in H. now apply optionValues_member.
  - intros ev st' Hallow Hstep. split.
    + apply (dashboard_selectionValid st').
      exact (dashboard_step st ev st' Hd Hallow Hstep).
    + destruct (step_data st st' ev
                  (reachable_timer st (dashboard_reachable st Hd)) Hstep)
        as [H | [H | [H | [-> H]]]]; auto.
      cbn in Hallow. unfold refreshDisabled in Hallow.
      rewrite H in Hallow. discriminate Hallow.
Qed.

End DataFacts.

(* ================================================================== *)
(** ** Invariants of the suspended calls *)
(* ================================================================== *)

Section CallFacts.

Context {Summary Fill : Type}.

Local Abbreviation St := (State Summary Fill).
Local Abbreviation Ev := (Event Summary Fill).
Local Abbreviation Cy := (Cycle Summary Fill).

Lemma replaceCycle_In_new (c c' : Cy) (cs : list Cy) :
  findCycle (cycleId c') cs = Some c -> In c' (replaceCycle c' cs).
Proof.
  induction cs as [|x rest IH]; simpl; [discriminate|].
  destruct (cycleId x =? cycleId c')%nat.
  - intros _. now left.
  - intro H. right. now apply IH.
Qed.

Lemma replaceCycle_In_other (c0 c c' : Cy) (cs : list Cy) :
  In c0 cs -> findCycle (cycleId c') cs = Some c -> c0 <> c ->
  In c0 (replaceCycle c' cs).
Proof.
  induction cs as [|x rest IH]; simpl; [contradiction|].
  destruct (cycleId x =? cycleId c')%nat.
  - intros [-> | Hin] E Hne.
    + injection E as <-. contradiction.
    + now right.
  - intros [-> | Hin] E Hne; [now left|]. right. now apply IH.
Qed.

Lemma loadData_addresses a (st : St) :
  Forall (fun c => address c <> "") (cycles st) ->
  Forall (fun c => address c <> "") (cycles (loadData a st)).
Proof.
  intro H. unfold loadData. destruct (String.eqb_spec a ""); [exact H|].
  cbn. apply Forall_app. split; [exact H|].
  constructor; [assumption | constructor].
Qed.

Lemma selectionEffect_addresses previous (st : St) :
  Forall (fun c => address c <> "") (cycles st) ->
  Forall (fun c => address c <> "") (cycles (selectionEffect previous st)).
Proof.
  intro H. unfold selectionEffect.
  destruct (selectedWallet st =? previous); [exact H|].
  cbn [selectedWallet setTimer].
  destruct (selectedWallet st =? ""); [exact H|].
  cbn [cycles setTimer]. now apply loadData_addresses.
Qed.

Lemma settleCycle_addresses (c c' : Cy) r (st : St) id :
  findCycle id (cycles st) = Some c -> address c' = address c ->
  Forall (fun c => address c <> "") (cycles st) ->
  Forall (fun c => address c <> "") (cycles (settleCycle c c' r st)).
Proof.
  intros Hc Ha H.
  assert (Hc' : address c' <> "").
  { rewrite Ha. rewrite Forall_forall in H. apply H.
    now apply (findCycle_In id). }
  unfold settleCycle. destruct (finished c).
  - cbn. now apply replaceCycle_Forall.
  - destruct r as [e|].
    + cbn. now apply replaceCycle_Forall.
    + destruct (summarySlot c') as [|s|];
        try (cbn; now apply replaceCycle_Forall).
      destruct (fillsSlot c') as [|f|];
        try (cbn; now apply replaceCycle_Forall).
      unfold loadDataResume. destruct f; cbn; now apply replaceCycle_Forall.
Qed.

Lemma step_addresses (st st' : St) (ev : Ev) :
  Forall (fun c => address c <> "") (cycles st) ->
  step st ev = Some st' ->
  Forall (fun c => address c <> "") (cycles st').
Proof.
  intros H Hstep.
  destruct ev as [|r|w| | |d|id r|id r]; simpl in Hstep.
  - injection Hstep as <-. exact H.
  - destruct (walletRequests st) as [|n]; [discriminate|].
    injection Hstep as <-.
    destruct r as [[response|]|e]; simpl; try exact H.
    now apply selectionEffect_addresses.
  - injection Hstep as <-. now apply selectionEffect_addresses.
  - injection Hstep as <-. now apply loadData_addresses.
  - destruct (timer st) as [[a due]|]; [|discriminate].
    destruct (now st <=? due)%Z; [|discriminate].
    injection Hstep as <-. now apply loadData_addresses.
  - destruct (_ && _); [|discriminate]. injection Hstep as <-. exact H.
  - destruct (findCycle id (cycles st)) as [c|] eqn:Hc; [|discriminate].
    destruct (isOutstanding (summarySlot c)); [|discriminate].
    injection Hstep as <-. now apply (settleCycle_addresses c _ _ st id).
  - destruct (findCycle id (cycles st)) as [c|] eqn:Hc; [|discriminate].
    destruct (isOutstanding (fillsSlot c)); [|discriminate].
    injection Hstep as <-. now apply (settleCycle_addresses c _ _ st id).
Qed.

(** The hook never fetches for the empty address: every call it has
    suspended, in any state it can be in, is for a non-empty address, so
    the summary path requested is never ["/wallets/"] alone. *)
Theorem no_fetch_for_empty_address (st : St) :
  reachable st ->
  Forall (fun c => address c <> ""
                   /\ Client.fetchWalletSummaryPath (address c) <> "/wallets/")
    (cycles st).
Proof.
  intro Hr.
  assert (H : Forall (fun c : Cy => address c <> "") (cycles st)).
  { induction Hr as [|st ev st' _ IH Hstep]; [constructor|].
    exact (step_addresses st st' ev IH Hstep). }
  eapply Forall_impl; [|exact H]. cbn. intros c Hc. split; [exact Hc|].
  unfold Client.fetchWalletSummaryPath. cbn. intro E.
  injection E as E. contradiction.
Qed.

Lemma loadData_pending a (st : St) :
  (loading st = true -> exists c, In c (cycles st) /\ finished c = false) ->
  loading (loadData a st) = true ->
  exists c, In c (cycles (loadData a st)) /\ finished c = false.
Proof.
  intros H. unfold loadData. destruct (a =? ""); [exact H|].
  intros _. cbn. exists (newCycle (nextId st) a).
  split; [|reflexivity]. apply in_or_app. right. now left.
Qed.

Lemma selectionEffect_pending previous (st : St) :
  (loading st = true -> exists c, In c (cycles st) /\ finished c = false) ->
  loading (selectionEffect previous st) = true ->
  exists c, In c (cycles (selectionEffect previous st)) /\ finished c = false.
Proof.
  intro H. unfold selectionEffect.
  destruct (selectedWallet st =? previous); [exact H|].
  cbn [selectedWallet setTimer].
  destruct (selectedWallet st =? ""); [exact H|].
  cbn [loading cycles setTimer]. now apply loadData_pending.
Qed.

Lemma settleCycle_pending (c c' : Cy) r (st : St) :
  findCycle (cycleId c') (cycles st) = Some c ->
  finished c' = finished c ->
  (loading st = true -> exists c, In c (cycles st) /\ finished c = false) ->
  loading (settleCycle c c' r st) = true ->
  exists c0, In c0 (cycles (settleCycle c c' r st)) /\ finished c0 = false.
Proof.
  intros Hc Hfin H. unfold settleCycle.
  destruct (finished c) eqn:Hf.
  - cbn. intro Hl. destruct (H Hl) as [c0 [Hin H0]].
    exists c0. split; [|exact H0].
    apply (replaceCycle_In_other c0 c); [assumption | assumption |].
    intros ->. congruence.
  - assert (Hkeep : exists c0,
              In c0 (replaceCycle c' (cycles st)) /\ finished c0 = false).
    { exists c'. split; [now apply (replaceCycle_In_new c) | congruence]. }
    destruct r as [e|]; [cbn; discriminate|].
    destruct (summarySlot c') as [|s|]; try (cbn; intros _; exact Hkeep).
    destruct (fillsSlot c') as [|f|]; try (cbn; intros _; exact Hkeep).
    unfold loadDataResume. destruct f; cbn; discriminate.
Qed.

Lemma step_pending (st st' : St) (ev : Ev) :
  (loading st = true -> exists c, In c (cycles st) /\ finished c = false) ->
  step st ev = Some st' ->
  loading st' = true -> exists c, In c (cycles st') /\ finished c = false.
Proof.
  intros H Hstep.
  destruct ev as [|r|w| | |d|id r|id r]; simpl in Hstep.
  - injection Hstep as <-. exact H.
  - destruct (walletRequests st) as [|n]; [discriminate|].
    injection Hstep as <-.
    destruct r as [[response|]|e]; simpl; try exact H.
    now apply selectionEffect_pending.
  - injection Hstep as <-. now apply selectionEffect_pending.
  - injection Hstep as <-. now apply loadData_pending.
  - destruct (timer st) as [[a due]|]; [|discriminate].
    destruct (now st <=? due)%Z; [|discriminate].
    injection Hstep as <-. now apply loadData_pending.
  - destruct (_ && _); [|discriminate]. injection Hstep as <-. exact H.
  - destruct (findCycle id (cycles st)) as [c|] eqn:Hc; [|discriminate].
    destruct (isOutstanding (summarySlot c)); [|discriminate].
    injection Hstep as <-. apply settleCycle_pending; [|reflexivity|exact H].
    cbn. now rewrite (findCycle_id _ _ _ Hc).
  - destruct (findCycle id (cycles st)) as [c|] eqn:Hc; [|discriminate].
    destruct (isOutstanding (fillsSlot c)); [|discriminate].
    injection Hstep as <-. apply settleCycle_pending; [|reflexivity|exact H].
    cbn. now rewrite (findCycle_id _ _ _ Hc).
Qed.

(** [loading] is never left on without a call in flight: whenever it is
    [true], some suspended call has not run its continuation yet; once
    every call has ended, [loading] is [false]. *)
Theorem loading_means_pending_call (st : St) :
  reachable st ->
  (loading st = true -> exists c, In c (cycles st) /\ finished c = false)
  /\ (Forall (fun c => finished c = true) (cycles st) -> loading st = false).
Proof.
  intro Hr.
  assert (H : loading st = true ->
              exists c, In c (cycles st) /\ finished c = false).
  { induction Hr as [|st ev st' _ IH Hstep]; [discriminate|].
    exact (step_pending st st' ev IH Hstep). }
  split; [exact H|].
  intro Hall. destruct (loading st) eqn:E; [|reflexivity].
  destruct (H eq_refl) as [c [Hin Hf]].
  rewrite Forall_forall in Hall. rewrite (Hall c Hin) in Hf. discriminate Hf.
Qed.

End CallFacts.

(* ================================================================== *)
(** ** The further properties on concrete sessions *)
(* ================================================================== *)

Lemma dashboardReachable_selectedA : Components.dashboardReachable selectedA.
Proof.
  apply (Components.dashboard_step mounted
           (WalletsSettled (walletList ["0xA"; "0xB"])) selectedA);
    [constructor | reflexivity | vm_compute; reflexivity].
Qed.

(** The summary fetch of the first call for ["0xA"] fails: the interval
    stays, and that fetch cannot settle again. *)
Lemma settlement_is_local_witness :
  step selectedA (SummarySettled 0 (Rejected (failure "HTTP 500")))
  = Some (runFrom selectedA [SummarySettled 0 (Rejected (failure "HTTP 500"))])
  /\ timer (runFrom selectedA
              [SummarySettled 0 (Rejected (failure "HTTP 500"))])
     = timer selectedA
  /\ step (runFrom selectedA
             [SummarySettled 0 (Rejected (failure "HTTP 500"))])
       (SummarySettled 0 (Rejected (failure "HTTP 500"))) = None.
Proof.
  assert (H : step selectedA (SummarySettled 0 (Rejected (failure "HTTP 500")))
              = Some (runFrom selectedA
                        [SummarySettled 0 (Rejected (failure "HTTP 500"))]))
    by (vm_compute; reflexivity).
  split; [exact H|].
  destruct (settlement_is_local selectedA _ 0 _
              (or_introl (ex_intro _ (Rejected (failure "HTTP 500")) eq_refl)) H)
    as [_ [_ [_ [H1 [_ [_ H2]]]]]].
  split; [exact H1 | exact H2].
Defined.

(** With ["0xA"] selected the interval polls ["0xA"]. *)
Lemma timer_tracks_selection_witness :
  reachable selectedA /\ Components.timerTracksSelection selectedA.
Proof.
  split; [exact reachable_selectedA|].
  exact (proj1 (timer_tracks_selection selectedA reachable_selectedA)).
Defined.

(** With ["0xA"] selected a tick is possible and polls ["0xA"]. *)
Lemma tick_polls_current_selection_witness :
  reachable selectedA
  /\ selectedWallet selectedA <> ""
  /\ exists due st',
       timer selectedA = Some (selectedWallet selectedA, due)
       /\ (now selectedA <= due <= now selectedA + REFRESH_INTERVAL)%Z
       /\ step selectedA Tick = Some st'
       /\ now st' = due
       /\ timer st'
          = Some (selectedWallet selectedA, (due + REFRESH_INTERVAL)%Z)
       /\ snapshot st' = (summary selectedA, fills selectedA, true, "")
       /\ cycles st'
          = (cycles selectedA
               ++ [newCycle (nextId selectedA) (selectedWallet selectedA)])%list.
Proof.
  assert (H : selectedWallet selectedA <> "") by (intro E; discriminate E).
  split; [exact reachable_selectedA|]. split; [exact H|].
  exact (proj2 (tick_polls_current_selection selectedA reachable_selectedA) H).
Defined.

(** A reload that returns the same two wallets while ["0xA"] is loaded. *)
Lemma unchanged_selection_restarts_nothing_witness :
  walletRequests Fixtures.reloading = 1%nat
  /\ step Fixtures.reloading (SelectWallet (selectedWallet Fixtures.reloading))
     = Some Fixtures.reloading.
Proof.
  assert (H1 : walletRequests Fixtures.reloading = 1%nat) by reflexivity.
  assert (H2 : selectedWallet Fixtures.reloading <> "")
    by (intro E; discriminate E).
  assert (H3 : In (selectedWallet Fixtures.reloading)
                 (walletsOf {| response_wallets := Some ["0xA"; "0xB"] |}))
    by (left; reflexivity).
  split; [exact H1|].
  exact (proj1 (unchanged_selection_restarts_nothing Fixtures.reloading
                  {| response_wallets := Some ["0xA"; "0xB"] |} 0 H1 H2 H3)).
Defined.

(** Switching from the loaded ["0xA"] to ["0xB"]. *)
Lemma switching_keeps_previous_data_witness :
  "0xB" <> selectedWallet loadedA
  /\ exists st',
       step loadedA (SelectWallet "0xB") = Some st'
       /\ selectedWallet st' = "0xB"
       /\ wallets st' = wallets loadedA
       /\ snapshot st' = (summary loadedA, fills loadedA, true, "")
       /\ cycles st' = (cycles loadedA ++ [newCycle (nextId loadedA) "0xB"])%list
       /\ timer st' = Some ("0xB", (now loadedA + REFRESH_INTERVAL)%Z).
Proof.
  assert (H1 : "0xB" <> "") by (intro E; discriminate E).
  assert (H2 : "0xB" <> selectedWallet loadedA) by (intro E; discriminate E).
  split; [exact H2|].
  exact (switching_keeps_previous_data loadedA "0xB" H1 H2).
Defined.

(** The fills request of the first call for ["0xA"] is answered 204 after
    its summary arrived. *)
Lemma fills_without_body_witness :
  findCycle 0 (cycles Fixtures.summaryArrived)
  = Some (withSummary (Resolved summaryA) (newCycle 0 "0xA"))
  /\ exists st',
       step Fixtures.summaryArrived
         (FillsSettled 0
            (request (Response true 204 "No Content" (Fulfilled "")
                        (Rejected (failure "Unexpected end of JSON input")))))
       = Some st'
       /\ summary st' = summaryA
       /\ fills st' = fills Fixtures.summaryArrived
       /\ loading st' = false
       /\ error st' <> "".
Proof.
  assert (H : findCycle 0 (cycles Fixtures.summaryArrived)
              = Some (withSummary (Resolved summaryA) (newCycle 0 "0xA")))
    by reflexivity.
  split; [exact H|].
  exact (proj1 (proj2
    (fills_without_body Fixtures.summaryArrived 0 _ summaryA "No Content"
       (Fulfilled "") (Rejected (failure "Unexpected end of JSON input"))
       H eq_refl)) eq_refl eq_refl).
Defined.

(** The first wallet-list request is answered 204. *)
Lemma wallets_without_body_witness :
  walletRequests (@mounted SampleSummary SampleFill) = 1%nat
  /\ exists st' : Session,
       step mounted
         (WalletsSettled
            (request (Response true 204 "No Content" (Fulfilled "")
                        (Fulfilled None))))
       = Some st'
       /\ wallets st' = wallets (@mounted SampleSummary SampleFill)
       /\ selectedWallet st' = selectedWallet (@mounted SampleSummary SampleFill)
       /\ summary st' = summary (@mounted SampleSummary SampleFill)
       /\ fills st' = fills (@mounted SampleSummary SampleFill)
       /\ loading st' = loading (@mounted SampleSummary SampleFill)
       /\ cycles st' = cycles (@mounted SampleSummary SampleFill)
       /\ timer st' = timer (@mounted SampleSummary SampleFill)
       /\ error st' <> "".
Proof.
  split; [reflexivity|].
  exact (wallets_without_body (@mounted SampleSummary SampleFill) 0
           "No Content" (Fulfilled "") (Fulfilled None) eq_refl).
Defined.

(** The fills request of the first call for ["0xA"] is answered 500 with
    an empty body. *)
Lemma http_error_text_is_shown_witness :
  findCycle 0 (cycles selectedA) = Some (newCycle 0 "0xA")
  /\ exists st',
       step selectedA
         (FillsSettled 0
            (request (Response false 500 "Internal Server Error"
                        (Fulfilled "") (Fulfilled None))))
       = Some st'
       /\ snapshot st'
          = (summary selectedA, fills selectedA, false,
             Client.errorTextOf 500 "Internal Server Error" (Fulfilled "")).
Proof.
  assert (H : findCycle 0 (cycles selectedA) = Some (newCycle 0 "0xA"))
    by reflexivity.
  split; [exact H|].
  exact (proj1 (proj2 (proj2
    (http_error_text_is_shown selectedA 0 _ 500 "Internal Server Error"
       (Fulfilled "") H eq_refl))) (Fulfilled None) eq_refl).
Defined.

(** Selecting ["0xB"] does not fulfil a fetch, so the data stays. *)
Lemma data_changes_only_on_fulfilment_witness :
  reachable selectedA
  /\ summary (runFrom selectedA [SelectWallet "0xB"]) = summary selectedA.
Proof.
  assert (H : step selectedA (SelectWallet "0xB")
              = Some (runFrom selectedA [SelectWallet "0xB"]))
    by (vm_compute; reflexivity).
  split; [exact reachable_selectedA|].
  destruct (data_changes_only_on_fulfilment Fixtures.samplePositions
              selectedA _ _ reachable_selectedA H)
    as [[H1 _] | [[id [s E]] | [[id [f E]] | [E _]]]];
    [exact H1 | discriminate E | discriminate E | discriminate E].
Defined.

(** Under the Dashboard, with ["0xA"] selected. *)
Lemma dashboard_keeps_selection_valid_witness :
  Components.dashboardReachable selectedA /\ selectionValid selectedA.
Proof.
  split; [exact dashboardReachable_selectedA|].
  exact (proj1 (dashboard_keeps_selection_valid selectedA
                  dashboardReachable_selectedA)).
Defined.

(** With ["0xA"] loaded every call has ended and [loading] is off. *)
Lemma loading_means_pending_call_witness :
  reachable loadedA /\ loading loadedA = false.
Proof.
  split; [exact reachable_loadedA|].
  apply (proj2 (loading_means_pending_call loadedA reachable_loadedA)).
  repeat constructor.
Defined.

(** The calls suspended with ["0xA"] selected. *)
Lemma no_fetch_for_empty_address_witness :
  reachable selectedA
  /\ Forall (fun c => address c <> ""
                      /\ Client.fetchWalletSummaryPath (address c)
                         <> "/wallets/")
       (cycles selectedA).
Proof.
  split; [exact reachable_selectedA|].
  exact (no_fetch_for_empty_address selectedA reachable_selectedA).
Defined.
